(** * libfinder (POSIX): locating shared libraries and reading their SONAME

    A shallow embedding of [lib/libfinder/posix.py].  The module talks to
    the outside world only through a handful of calls ([find_executable],
    [Popen], [NamedTemporaryFile], [glob], [isfile], [getcwd], [uname],
    and [realpath], which reads the symbolic links of the file system);
    these are the fields of [World].  Everything the module
    computes itself (command lines, regular expressions, slicing of the
    captured text, the resolution cascade, exception handling) is modelled
    as executable definitions. *)

From Stdlib Require Import NArith ZArith String Ascii List Bool Lia.
From stdpp Require Import base option list gmap.

Set Default Proof Using "Type".

(** ** Python text

    A Python 3 [str] is a sequence of Unicode code points: [list N].
    [bytes] (what a child process writes) is [list Byte.byte]. *)

Module PyStr.


Definition pystr (s : string) : list N :=
  List.map N_of_ascii (list_ascii_of_string s).
Arguments pystr s%_string.

(** [str.isspace] for one code point; it is also what [\s] matches in a
    [str] pattern (CPython's [Py_UNICODE_ISSPACE]). *)
Definition isspace (c : N) : bool :=
  (((9 <=? c) && (c <=? 13)) || ((28 <=? c) && (c <=? 32))
   || (c =? 133) || (c =? 160) || (c =? 5760)
   || ((8192 <=? c) && (c <=? 8202))
   || (c =? 8232) || (c =? 8233) || (c =? 8239) || (c =? 8287)
   || (c =? 12288))%N.

Fixpoint str_eqb (a b : list N) : bool :=
  match a, b with
  | [], [] => true
  | x :: a', y :: b' => (x =? y)%N && str_eqb a' b'
  | _, _ => false
  end.

(** [s.startswith(p)] *)
Fixpoint startswith (p s : list N) : bool :=
  match p, s with
  | [], _ => true
  | x :: p', y :: s' => (x =? y)%N && startswith p' s'
  | _ :: _, [] => false
  end.

(** [s.endswith(p)] *)
Definition endswith (p s : list N) : bool := startswith (rev p) (rev s).

Fixpoint lstrip (s : list N) : list N :=
  match s with
  | c :: s' => if isspace c then lstrip s' else s
  | [] => []
  end.

Definition rstrip (s : list N) : list N := rev (lstrip (rev s)).

(** [s.strip()] *)
Definition strip (s : list N) : list N := rstrip (lstrip s).

Fixpoint index_of (c : N) (s : list N) : option nat :=
  match s with
  | [] => None
  | x :: s' => if (x =? c)%N then Some 0%nat else S <$> index_of c s'
  end.

(** [s.find(c, start)] for a one-character [c] and [0 <= start] *)
Definition find (s : list N) (c : N) (start : nat) : Z :=
  match index_of c (skipn start s) with
  | Some k => Z.of_nat (start + k)
  | None => (-1)%Z
  end.

(** [s[start:stop]]: negative indices count from the end, everything is
    clamped to the string. *)
Definition slice (s : list N) (start stop : Z) : list N :=
  let len := Z.of_nat (length s) in
  let clamp i := if (i <? 0)%Z then Z.max 0 (i + len) else Z.min i len in
  let a := clamp start in
  let b := clamp stop in
  firstn (Z.to_nat (b - a)) (skipn (Z.to_nat a) s).

(** [s.split(sep)] for a non-empty [sep]: [cur] is the piece being read
    (reversed), [skip] the number of characters of an already recognised
    separator still to pass over. *)
Fixpoint split_go (sep : list N) (skip : nat) (cur : list N) (s : list N)
  : list (list N) :=
  match s with
  | [] => [rev cur]
  | c :: s' =>
      match skip with
      | S k => split_go sep k cur s'
      | O =>
          if startswith sep s
          then rev cur :: split_go sep (length sep - 1) [] s'
          else split_go sep 0 (c :: cur) s'
      end
  end.

Definition split (sep s : list N) : list (list N) := split_go sep 0 [] s.

(** [sep.join(parts)] *)
Fixpoint join_str (sep : list N) (parts : list (list N)) : list N :=
  match parts with
  | [] => []
  | [p] => p
  | p :: ps => p ++ sep ++ join_str sep ps
  end.

(** [l[-1]] of a list of strings known to be non-empty *)
Definition last_item (l : list (list N)) : list N := List.last l [].

(** [bytes.decode('utf-8')], strict: [None] stands for
    [UnicodeDecodeError]. *)
Definition cont (b : N) : bool := ((128 <=? b) && (b <=? 191))%N.

Local Open Scope N_scope.

Fixpoint decode_utf8 (bs : list N) : option (list N) :=
  match bs with
  | [] => Some []
  | b0 :: r0 =>
      if b0 <? 128 then (b0 ::.) <$> decode_utf8 r0
      else if (194 <=? b0) && (b0 <=? 223) then
        match r0 with
        | b1 :: r1 =>
            if cont b1
            then (((b0 - 192) * 64 + (b1 - 128)) ::.) <$> decode_utf8 r1
            else None
        | _ => None
        end
      else if (224 <=? b0) && (b0 <=? 239) then
        match r0 with
        | b1 :: b2 :: r2 =>
            if cont b1 && cont b2
               && negb ((b0 =? 224) && (b1 <? 160))
               && negb ((b0 =? 237) && (160 <=? b1))
            then (((b0 - 224) * 4096 + (b1 - 128) * 64 + (b2 - 128)) ::.)
                   <$> decode_utf8 r2
            else None
        | _ => None
        end
      else if (240 <=? b0) && (b0 <=? 244) then
        match r0 with
        | b1 :: b2 :: b3 :: r3 =>
            if cont b1 && cont b2 && cont b3
               && negb ((b0 =? 240) && (b1 <? 144))
               && negb ((b0 =? 244) && (144 <=? b1))
            then (((b0 - 240) * 262144 + (b1 - 128) * 4096
                   + (b2 - 128) * 64 + (b3 - 128)) ::.) <$> decode_utf8 r3
            else None
        | _ => None
        end
      else None
  end.

Local Close Scope N_scope.

(** The captured output as the byte values [0..255]. *)
Definition bytes_values (bs : list Byte.byte) : list N :=
  List.map Byte.to_N bs.

Definition decode (bs : list Byte.byte) : option (list N) :=
  decode_utf8 (bytes_values bs).

End PyStr.

Import PyStr.

(** ** Regular expressions ([re.search])

    The three patterns of the module are sequences of literal characters,
    single character classes, greedy repetitions of a class, and one
    capturing group.  [re.escape(library)] yields a pattern that matches
    [library] literally: [escape]. *)

Module Re.


Inductive atom :=
| Chr (c : N)              (* a literal character, [\.] and [\(] included *)
| Cls (p : N -> bool)      (* one character of a class, [\s] *)
| Plus (p : N -> bool)     (* [class+], greedy *)
| Star (p : N -> bool)     (* [class*], greedy *)
| GroupOpen                (* [(] of group 1 *)
| GroupClose.              (* [)] of group 1 *)

Definition escape (s : list N) : list atom := Chr <$> s.

(** A fragment without metacharacters, spliced into a pattern as it is. *)
Definition verbatim (s : list N) : list atom := Chr <$> s.

Record rmatch := {
  m_string : list N;                 (* the text searched *)
  m_start : nat;                     (* [match.start()] *)
  m_end : nat;                       (* [match.end()] *)
  m_group1 : option (nat * nat)      (* span of group 1, if it took part *)
}.

(** Captures while matching: where group 1 opened and where it closed. *)
Definition caps : Type := option nat * option nat.

(** Greedy repetition: take one more character of the class if that leads
    to a match, otherwise go on with the rest of the pattern ([k]) here. *)
Fixpoint star (p : N -> bool) (k : nat -> list N -> option (nat * caps))
  (i : nat) (s : list N) : option (nat * caps) :=
  match s with
  | c :: s' =>
      if p c
      then match star p k (S i) s' with
           | Some r => Some r
           | None => k i s
           end
      else k i s
  | [] => k i s
  end.

(** Backtracking match of pattern [r] at position [i], where the text
    still to read is [s]; yields the end position and the captures. *)
Fixpoint match_here (r : list atom) (g : caps) (i : nat) (s : list N)
  : option (nat * caps) :=
  match r with
  | [] => Some (i, g)
  | Chr c :: r' =>
      match s with
      | x :: s' => if (x =? c)%N then match_here r' g (S i) s' else None
      | [] => None
      end
  | Cls p :: r' =>
      match s with
      | x :: s' => if p x then match_here r' g (S i) s' else None
      | [] => None
      end
  | Plus p :: r' =>
      match s with
      | x :: s' => if p x then star p (match_here r' g) (S i) s' else None
      | [] => None
      end
  | Star p :: r' => star p (match_here r' g) i s
  | GroupOpen :: r' => match_here r' (Some i, None) i s
  | GroupClose :: r' => match_here r' (g.1, Some i) i s
  end.

(** Leftmost match: try every start position in turn. *)
Fixpoint search_from (r : list atom) (text : list N) (i : nat) (s : list N)
  : option rmatch :=
  match match_here r (None, None) i s with
  | Some (e, g) =>
      Some {| m_string := text; m_start := i; m_end := e;
              m_group1 := match g with
                          | (Some a, Some b) => Some (a, b)
                          | _ => None
                          end |}
  | None =>
      match s with
      | [] => None
      | _ :: s' => search_from r text (S i) s'
      end
  end.

(** [re.search(pattern, text)] *)
Definition search (r : list atom) (text : list N) : option rmatch :=
  search_from r text 0 text.

(** [match.group(0)] *)
Definition group0 (m : rmatch) : list N :=
  slice (m_string m) (Z.of_nat (m_start m)) (Z.of_nat (m_end m)).

(** [match.group(1)]: [None] when the group did not take part. *)
Definition group1 (m : rmatch) : option (list N) :=
  match m_group1 m with
  | Some (a, b) => Some (slice (m_string m) (Z.of_nat a) (Z.of_nat b))
  | None => None
  end.

Definition notspace (c : N) : bool := negb (isspace c).

(** [[^\(\)\s]] *)
Definition notparenspace (c : N) : bool :=
  negb ((c =? 40)%N || (c =? 41)%N || isspace c).

End Re.

Import Re.

(** ** [shlex.split] (POSIX mode, no comments, [whitespace_split])

    The token reader of [shlex] is a state machine over the characters of
    the command; the two errors it raises are unbalanced quotes and a
    trailing backslash. *)

Module Shlex.


Inductive shstate :=
| ShWhite                  (* [' ']: between tokens *)
| ShWord                   (* ['a']: inside a word *)
| ShQuote (q : N)          (* inside quotes opened by [q] *)
| ShEscape (back : option N).
    (* after a backslash; returns to the word ([None]) or to the quotes *)

Definition sh_whitespace (c : N) : bool :=
  ((c =? 32) || (c =? 9) || (c =? 13) || (c =? 10))%N.
Definition sh_quote (c : N) : bool := ((c =? 39) || (c =? 34))%N.
Definition sh_escape (c : N) : bool := (c =? 92)%N.

(** [tok] is the token being read (reversed), [quoted] whether quotes
    were seen in it, [acc] the tokens read so far (reversed). *)
Fixpoint shlex_go (st : shstate) (quoted : bool) (tok : list N)
  (acc : list (list N)) (s : list N) : string + list (list N) :=
  match s with
  | [] =>
      match st with
      | ShWhite => inr (rev acc)
      | ShWord =>
          if quoted || negb (str_eqb tok [])
          then inr (rev (rev tok :: acc))
          else inr (rev acc)
      | ShQuote _ => inl "No closing quotation"%string
      | ShEscape _ => inl "No escaped character"%string
      end
  | c :: s' =>
      match st with
      | ShWhite =>
          if sh_whitespace c then shlex_go ShWhite false [] acc s'
          else if sh_escape c then shlex_go (ShEscape None) false [] acc s'
          else if sh_quote c then shlex_go (ShQuote c) false [] acc s'
          else shlex_go ShWord false [c] acc s'
      | ShQuote q =>
          if (c =? q)%N then shlex_go ShWord true tok acc s'
          else if sh_escape c && (q =? 34)%N
               then shlex_go (ShEscape (Some q)) true tok acc s'
          else shlex_go (ShQuote q) true (c :: tok) acc s'
      | ShEscape None => shlex_go ShWord quoted (c :: tok) acc s'
      | ShEscape (Some q) =>
          if negb (c =? 92)%N && negb (c =? q)%N
          then shlex_go (ShQuote q) quoted (c :: 92%N :: tok) acc s'
          else shlex_go (ShQuote q) quoted (c :: tok) acc s'
      | ShWord =>
          if sh_whitespace c then
            if quoted || negb (str_eqb tok [])
            then shlex_go ShWhite false [] (rev tok :: acc) s'
            else shlex_go ShWhite false [] acc s'
          else if sh_quote c then shlex_go (ShQuote c) quoted tok acc s'
          else if sh_escape c then shlex_go (ShEscape None) quoted tok acc s'
          else shlex_go ShWord quoted (c :: tok) acc s'
      end
  end.

(** [shlex.split(command)]: the arguments, or the message of the
    [ValueError] it raises. *)
Definition shsplit (command : list N) : string + list (list N) :=
  shlex_go ShWhite false [] [] command.

(** A string [shlex] reads as part of one word: no whitespace, quote or
    backslash in it. *)
Definition sh_plain (s : list N) : bool :=
  forallb (fun c => negb (sh_whitespace c || sh_quote c || sh_escape c)) s.

(** The reader is outside quotes and escapes. *)
Definition sh_outside (st : shstate) : bool :=
  match st with
  | ShWhite | ShWord => true
  | _ => false
  end.

End Shlex.

Import Shlex.

(** ** [os.path] (POSIX flavour) *)

Module OsPath.


Definition sep : list N := pystr "/".

Definition isabs (path : list N) : bool := startswith sep path.

(** [os.path.join(a, b)] *)
Definition join (a b : list N) : list N :=
  if startswith sep b then b
  else if str_eqb a [] || endswith sep a then a ++ b
  else a ++ sep ++ b.

(** The loop body of [normpath]; [new_comps] is kept as a stack, last
    component first. *)
Definition normpath_step (initial_slashes : nat) (new_comps : list (list N))
  (comp : list N) : list (list N) :=
  if str_eqb comp [] || str_eqb comp (pystr ".") then new_comps
  else if negb (str_eqb comp (pystr ".."))
          || ((initial_slashes =? 0)%nat
              && match new_comps with [] => true | _ => false end)
          || match new_comps with
             | top :: _ => str_eqb top (pystr "..")
             | [] => false
             end
       then comp :: new_comps
       else match new_comps with
            | _ :: rest => rest
            | [] => []
            end.

(** The count [normpath] keeps of the slashes a path begins with: POSIX
    allows one or two initial slashes and treats three or more as one. *)
Definition initial_slashes (path : list N) : nat :=
  if startswith sep path
  then if startswith (pystr "//") path
          && negb (startswith (pystr "///") path)
       then 2 else 1
  else 0.

(** [os.path.normpath(path)] *)
Definition normpath (path : list N) : list N :=
  if str_eqb path [] then pystr "."
  else
    let initial_slashes : nat := initial_slashes path in
    let comps := split sep path in
    let new_comps := rev (fold_left (normpath_step initial_slashes) comps []) in
    let path := join_str sep new_comps in
    let path := concat (replicate initial_slashes sep) ++ path in
    if str_eqb path [] then pystr "." else path.

(** A component [normpath] keeps: not empty, not [.], without [/]. *)
Definition clean (comp : list N) : Prop :=
  comp <> [] /\ comp <> pystr "." /\ 47%N ∉ comp.

(** The stack of [normpath] at any time: clean components, with the [..]
    ones all at the bottom, and none of them under an absolute path. *)
Definition stack_ok (initial_slashes : nat) (stack : list (list N)) : Prop :=
  Forall clean stack
  /\ exists n rest,
       stack = rest ++ replicate n (pystr "..")
       /\ ((pystr "..") ∉ rest)
       /\ (initial_slashes <> 0 -> n = 0).

(** [os.path.abspath(path)], given the working directory *)
Definition abspath (cwd path : list N) : list N :=
  normpath (if isabs path then path else join cwd path).

(** The part of [s] before its first slash, and the rest of [s] from that
    slash on. *)
Fixpoint until_sep (s : list N) : list N :=
  match s with
  | [] => []
  | c :: s' => if (c =? 47)%N then [] else c :: until_sep s'
  end.

Fixpoint from_sep (s : list N) : list N :=
  match s with
  | [] => []
  | c :: s' => if (c =? 47)%N then s else from_sep s'
  end.

(** [s.lstrip('/')] *)
Fixpoint lstrip_sep (s : list N) : list N :=
  match s with
  | c :: s' => if (c =? 47)%N then lstrip_sep s' else s
  | [] => []
  end.

(** [os.path.split(p)]: [p] is cut after its last slash; the head loses
    its trailing slashes unless it is made of slashes only. *)
Definition psplit (p : list N) : list N * list N :=
  let tail := rev (until_sep (rev p)) in
  let head := rev (from_sep (rev p)) in
  let head :=
    if forallb (N.eqb 47) head then head
    else rev (lstrip_sep (rev head)) in
  (head, tail).

End OsPath.

Import OsPath.

(** ** The outside world, exceptions and effects *)

Inductive exn :=
| OSError (errno : Z)
| ValueError (msg : string)
| UnicodeDecodeError
| AssertionError (msg : list N)
| UnboundLocalError (name : string)
| RecursionError.

(** [UnboundLocalError] is a subclass of [NameError]. *)
Definition is_NameError (e : exn) : bool :=
  match e with UnboundLocalError _ => true | _ => false end.

Definition ENOENT : Z := 2.

(** What [Popen] raises when it cannot start the child: an [OSError]
    (command not found, no permission, no memory, no file descriptors, ...)
    or a [ValueError] (an argument it refuses). *)
Inductive spawn_error :=
| SpawnOSError (errno : Z)
| SpawnValueError (msg : string).

Definition exn_of_spawn_error (e : spawn_error) : exn :=
  match e with
  | SpawnOSError errno => OSError errno
  | SpawnValueError msg => ValueError msg
  end.

(** What the module asks of its environment.  One call of the module sees
    one world: the answers do not change while it runs. *)
Record World := {
  uname_machine : list N;                   (* [uname().machine] *)
  calcsize_l : Z;                           (* [calcsize('l')] *)
  find_executable : list N -> option (list N);
  (* [Popen(args, ...)] followed by [communicate()]: the exception raised,
     or the bytes the child wrote to its standard output *)
  popen : list (list N) -> spawn_error + list Byte.byte;
  (* [NamedTemporaryFile()]: the [errno] of the [OSError] raised, or
     [tmp.name] *)
  mktemp : Z + list N;
  (* leaving the [with] block closes and unlinks the file, which may raise
     an [OSError] *)
  tmp_close : list N -> option Z;
  (* [os.getcwd()]: the [errno] of the [OSError] raised (the working
     directory was removed), or the directory *)
  getcwd : Z + list N;
  (* [glob(pattern)]: the message of the [ValueError] raised (a NUL in the
     directory part), or the names found *)
  glob : list N -> string + list (list N);
  isfile : list N -> bool;
  (* the symbolic links [os.lstat] reports: absolute normalised path of
     the link, and what [os.readlink] gives for it *)
  links : gmap (list N) (list N);
  (* how deep the interpreter lets [_joinrealpath] call itself before it
     raises [RecursionError] *)
  recursion_limit : nat
}.

(** ** [os.path.realpath]

    [realpath] is [abspath] after the walk of [_joinrealpath], which
    follows the path component by component and asks the file system
    about every prefix it builds.  It is the walk of CPython's
    [posixpath], in its default mode ([strict=False]): a symbolic-link
    loop is not an error, the walk stops at it and leaves the rest of the
    path as it is.

    What [os.lstat] answers depends here on the place a name stands for
    alone.  A name with a NUL in it makes it raise [ValueError]; any other
    failure ([OSError]) makes the walk take the name for something that
    is no link, and is modelled for a relative name without a working
    directory only: a name that [os.lstat] cannot look at (no permission
    to search a directory, a name too long for the system) is, for the
    walk, no link, and has no entry in [links]. *)

(** [os.lstat(path)] says that [path] is a symbolic link, and
    [os.readlink(path)] gives its target.  A relative name is looked up
    from the working directory; where there is none the lookup fails, and
    [_joinrealpath] takes the name for something other than a link. *)
Definition readlink (w : World) (path : list N) : option (list N) :=
  if isabs path then links w !! normpath path
  else match getcwd w with
       | inr cwd => links w !! normpath (join cwd path)
       | inl _ => None
       end.

(** The dictionary [seen] of [_joinrealpath]: the links met so far, each
    with the path it resolved to ([None] while it is being resolved). *)
Abbreviation seen_map := (gmap (list N) (option (list N))) (only parsing).

(** The step [_joinrealpath] makes for the component [..]: one level up,
    or one more [..] where there is nothing to go up from. *)
Definition pardir_step (path : list N) : list N :=
  if str_eqb path [] then pystr ".."
  else
    let '(head, tail) := psplit path in
    if str_eqb tail (pystr "..")
    then join (join head (pystr "..")) (pystr "..")
    else head.

Definition has_nul (s : list N) : bool := existsb (N.eqb 0) s.

(** What a call of [_joinrealpath] gives: the exception it raises, or the
    path reached, whether every link on the way was resolved, and the
    dictionary. *)
Abbreviation walk := (exn + list N * bool * gmap (list N) (option (list N)))%type
  (only parsing).

(** The loop of [_joinrealpath] over the components of [rest];
    [resolve] is the recursive call made for the target of a link.
    [os.lstat] raises [ValueError] for a name with a NUL in it. *)
Fixpoint joinrealpath_loop (w : World)
  (resolve : list N -> list N -> seen_map -> walk)
  (path : list N) (comps : list (list N)) (seen : seen_map) : walk :=
  match comps with
  | [] => inr (path, true, seen)
  | name :: comps' =>
      if str_eqb name [] || str_eqb name (pystr ".")
      then joinrealpath_loop w resolve path comps' seen
      else if str_eqb name (pystr "..")
      then joinrealpath_loop w resolve (pardir_step path) comps' seen
      else
        let newpath := join path name in
        if has_nul newpath then inl (ValueError "embedded null byte")
        else
          match readlink w newpath with
          | None => joinrealpath_loop w resolve newpath comps' seen
          | Some target =>
              match seen !! newpath with
              | Some (Some cached) =>
                  joinrealpath_loop w resolve cached comps' seen
              | Some None =>
                  (* a loop: the part resolved so far, and the rest as it
                     is *)
                  inr (join newpath (join_str sep comps'), false, seen)
              | None =>
                  match resolve path target (<[newpath := None]> seen) with
                  | inl e => inl e
                  | inr (p, true, seen') =>
                      joinrealpath_loop w resolve p comps'
                        (<[newpath := Some p]> seen')
                  | inr (p, false, seen') =>
                      inr (join p (join_str sep comps'), false, seen')
                  end
              end
          end
  end.

(** [_joinrealpath(path, rest, seen)], with [depth] calls of itself left
    before the interpreter raises [RecursionError]. *)
Fixpoint joinrealpath (w : World) (depth : nat) (path rest : list N)
  (seen : seen_map) : walk :=
  match depth with
  | O => inl RecursionError
  | S depth' =>
      let path := if isabs rest then sep else path in
      let rest := if isabs rest then drop 1 rest else rest in
      joinrealpath_loop w (joinrealpath w depth') path (split sep rest) seen
  end.

(** The walk [realpath] starts. *)
Definition realpath_walk (w : World) (filename : list N) : walk :=
  joinrealpath w (recursion_limit w) [] filename ∅.


(** The paths the walk asks the file system about when it is given the
    absolute path [p]: the directories above [p], from the top, and [p]
    itself. *)
Fixpoint ancestors_from (dir : list N) (comps : list (list N))
  : list (list N) :=
  match comps with
  | [] => []
  | c :: comps' =>
      if str_eqb c [] then ancestors_from dir comps'
      else join dir c :: ancestors_from (join dir c) comps'
  end.

Definition ancestors (p : list N) : list (list N) :=
  ancestors_from sep (split sep (drop 1 p)).

(** No symbolic link is left in the absolute path [p]. *)
Definition resolved (w : World) (p : list N) : bool :=
  forallb (fun q => bool_decide (links w !! q = None)) (ancestors p).



(** The calls that leave the process, in the order they are made (the most
    recent one first). *)
Inductive event :=
| EvFindExecutable (name : list N)
| EvPopen (args : list (list N))
| EvLogDebug
| EvTmpOpen (name : list N)
| EvTmpClose (name : list N)
| EvGetcwd
| EvGlob (pattern : list N)
| EvIsfile (path : list N)
| EvRealpath (path : list N).

Inductive outcome (A : Type) :=
| Return (a : A)
| Raise (e : exn).
Arguments Return {A} a.
Arguments Raise {A} e.

(** A computation: from the log so far to its outcome and the new log. *)
Definition M (A : Type) : Type := list event -> outcome A * list event.

Definition ret {A} (a : A) : M A := fun st => (Return a, st).

Definition raise {A} (e : exn) : M A := fun st => (Raise e, st).

Definition bind {A B} (c : M A) (k : A -> M B) : M B :=
  fun st =>
    match c st with
    | (Return a, st') => k a st'
    | (Raise e, st') => (Raise e, st')
    end.

Definition emit (ev : event) : M unit := fun st => (Return tt, ev :: st).

Notation "x <- c ;; k" := (bind c (fun x => k))
  (at level 100, c at next level, right associativity).
Notation "c ;;; k" := (bind c (fun _ => k))
  (at level 100, right associativity).

(** [try: body / except OSError: handler] *)
Definition try_except_OSError {A} (body : M A) (handler : Z -> M A) : M A :=
  fun st =>
    match body st with
    | (Raise (OSError errno), st') => handler errno st'
    | r => r
    end.

(** The files created by [NamedTemporaryFile] that the log shows as still
    open. *)
Fixpoint remove_first (n : list N) (l : list (list N)) : list (list N) :=
  match l with
  | [] => []
  | x :: l' => if str_eqb x n then l' else x :: remove_first n l'
  end.

Fixpoint open_files (log : list event) : list (list N) :=
  match log with
  | [] => []
  | EvTmpOpen n :: older => n :: open_files older
  | EvTmpClose n :: older => remove_first n (open_files older)
  | _ :: older => open_files older
  end.

(** ** The module *)

Definition abi_map : gmap (list N * list N) (list N) :=
  list_to_map [
    ((pystr "x86_64", pystr "64"), pystr "libc6,x86-64");
    ((pystr "ppc64", pystr "64"), pystr "libc6,64bit");
    ((pystr "sparc64", pystr "64"), pystr "libc6,64bit");
    ((pystr "s390x", pystr "64"), pystr "libc6,64bit");
    ((pystr "ia64", pystr "64"), pystr "libc6,IA-64")
  ].

(** [_abi_type()] *)
Definition _abi_type (w : World) : list N :=
  let machine := uname_machine w in
  let arch := if (calcsize_l w =? 4)%Z then pystr "32" else pystr "64" in
  default (pystr "libc6") (abi_map !! (machine, arch)).

(** [_execute(command)] *)
Definition _execute (w : World) (command : list N) : M (option (list N)) :=
  r <- try_except_OSError
         (args <- match shsplit command with
                  | inl msg => raise (ValueError msg)
                  | inr args => ret args
                  end ;;
          emit (EvPopen args) ;;;
          match popen w args with
          | inl e => raise (exn_of_spawn_error e)
          | inr pstdout => ret (Some pstdout)
          end)
         (fun _ => emit EvLogDebug ;;; ret None) ;;
  match r with
  | None => ret None
  | Some pstdout =>
      match decode pstdout with
      | Some text => ret (Some text)
      | None => raise UnicodeDecodeError
      end
  end.

(** [os.getcwd()] *)
Definition call_getcwd (w : World) : M (list N) :=
  emit EvGetcwd ;;;
  match getcwd w with
  | inl errno => raise (OSError errno)
  | inr cwd => ret cwd
  end.

(** [os.path.realpath(filename)]: after the walk, [abspath] asks for the
    working directory when the path reached is relative. *)
Definition call_realpath (w : World) (filename : list N) : M (list N) :=
  match realpath_walk w filename with
  | inl e => raise e
  | inr (path, _, _) =>
      if isabs path then ret (normpath path)
      else cwd <- call_getcwd w ;; ret (normpath (join cwd path))
  end.

(** [_final_path(library_path)] *)
Definition _final_path (w : World) (library_path : list N) : M (list N) :=
  let p := normpath library_path in
  emit (EvRealpath p) ;;; call_realpath w p.

Definition call_find_executable (w : World) (name : list N)
  : M (option (list N)) :=
  emit (EvFindExecutable name) ;;; ret (find_executable w name).

(** The pattern of [_ldconfig_search]:
    [\s+(lib{library}\.[^\s]+)\s+\({abi_type}] *)
Definition ldconfig_expr (library abi_type : list N) : list atom :=
  [Plus isspace; GroupOpen] ++ verbatim (pystr "lib") ++ escape library
  ++ [Chr 46%N; Plus notspace; GroupClose; Plus isspace; Chr 40%N]
  ++ verbatim abi_type.

(** [_ldconfig_search(library)] *)
Definition _ldconfig_search (w : World) (library : list N)
  : M (option (list N)) :=
  executable <- call_find_executable w (pystr "ldconfig") ;;
  match executable with
  | None => ret None
  | Some executable =>
      ldconfig <- _execute w (executable ++ pystr " -p") ;;
      match ldconfig with
      | None => ret None
      | Some ldconfig =>
          let abi_type := _abi_type w in
          let expr := ldconfig_expr library abi_type in
          match search expr ldconfig with
          | None => ret None
          | Some m =>
              let end_of_line := find ldconfig 10%N (m_end m) in
              let line :=
                strip (slice ldconfig (Z.of_nat (m_start m)) end_of_line) in
              let library_path :=
                strip (last_item (split (pystr "=>") line)) in
              p <- _final_path w library_path ;; ret (Some p)
          end
      end
  end.

(** Python truth value of a result that is [None] or a string. *)
Definition truthy (v : option (list N)) : bool :=
  match v with
  | Some (_ :: _) => true
  | _ => false
  end.

(** [a or b]: [b] is evaluated only when [a] is false. *)
Definition py_or (a b : M (option (list N))) : M (option (list N)) :=
  x <- a ;; if truthy x then ret x else b.

(** The pattern of [_gcc_search]: [[^\(\)\s]*lib{library}\.[^\(\)\s]*] *)
Definition gcc_expr (library : list N) : list atom :=
  [Star notparenspace] ++ verbatim (pystr "lib") ++ escape library
  ++ [Chr 46%N; Star notparenspace].

(** The command line of [_gcc_search]:
    [{linker} -Wl,-t -o "{program}" -l"{library}"] *)
Definition gcc_command (linker program library : list N) : list N :=
  linker ++ pystr " -Wl,-t -o " ++ [34%N] ++ program ++ [34%N]
  ++ pystr " -l" ++ [34%N] ++ library ++ [34%N].

Definition call_mktemp (w : World) : M (list N) :=
  match mktemp w with
  | inl errno => raise (OSError errno)
  | inr name => emit (EvTmpOpen name) ;;; ret name
  end.

(** [tmp.__exit__]: the file is closed and unlinked. *)
Definition call_tmp_close (w : World) (name : list N) : M unit :=
  emit (EvTmpClose name) ;;;
  match tmp_close w name with
  | Some errno => raise (OSError errno)
  | None => ret tt
  end.

(** The [with NamedTemporaryFile() as tmp:] statement of [_gcc_search].
    Besides how the statement ended, it yields the binding of the local
    variable [trace]: [None] while nothing was assigned to it. *)
Definition gcc_with_block (w : World) (linker library : list N)
  (st : list event)
  : option (option (list N)) * outcome unit * list event :=
  match call_mktemp w st with
  | (Raise e, st1) => (None, Raise e, st1)
  | (Return tmp, st1) =>
      let command := gcc_command linker tmp library in
      match _execute w command st1 with
      | (Return v, st2) =>
          (* [trace = v]; then the block is left *)
          let '(closed, st3) := call_tmp_close w tmp st2 in
          (Some v, closed, st3)
      | (Raise e, st2) =>
          (* the block is left with [e] pending; an exception raised
             while closing replaces it *)
          match call_tmp_close w tmp st2 with
          | (Return _, st3) => (None, Raise e, st3)
          | (Raise e', st3) => (None, Raise e', st3)
          end
      end
  end.

(** What follows the [try] statement of [_gcc_search]. *)
Definition gcc_parse_trace (w : World) (library : list N)
  (trace : option (option (list N))) : M (option (list N)) :=
  match trace with
  | None => raise (UnboundLocalError "trace")
  | Some None => ret None
  | Some (Some trace) =>
      let expr := gcc_expr library in
      match search expr trace with
      | None => ret None
      | Some m =>
          let library_path := normpath (group0 m) in
          p <- _final_path w library_path ;; ret (Some p)
      end
  end.

(** [find_executable('cc') or find_executable('gcc')] *)
Definition find_linker (w : World) : M (option (list N)) :=
  py_or (call_find_executable w (pystr "cc"))
        (call_find_executable w (pystr "gcc")).

(** [_gcc_search(library)] *)
Definition _gcc_search (w : World) (library : list N)
  : M (option (list N)) :=
  linker <- find_linker w ;;
  match linker with
  | None => ret None
  | Some linker =>
      fun st =>
        let '(trace, ended, st') := gcc_with_block w linker library st in
        match ended with
        | Raise (OSError errno) =>
            (* [except OSError as e: if e.errno != ENOENT: raise] *)
            if negb (errno =? ENOENT)%Z
            then (Raise (OSError errno), st')
            else gcc_parse_trace w library trace st'
        | Raise e => (Raise e, st')
        | Return _ => gcc_parse_trace w library trace st'
        end
  end.

(** The loop of [_local_search] over the names [glob] returned. *)
Fixpoint local_first_file (w : World) (filenames : list (list N))
  : M (option (list N)) :=
  match filenames with
  | [] => ret None
  | filename :: rest =>
      emit (EvIsfile filename) ;;;
      if isfile w filename
      then p <- _final_path w filename ;; ret (Some p)
      else local_first_file w rest
  end.

(** [glob(pattern)] *)
Definition call_glob (w : World) (pattern : list N) : M (list (list N)) :=
  emit (EvGlob pattern) ;;;
  match glob w pattern with
  | inl msg => raise (ValueError msg)
  | inr filenames => ret filenames
  end.

(** [_local_search(library)] *)
Definition _local_search (w : World) (library : list N)
  : M (option (list N)) :=
  cwd <- call_getcwd w ;;
  let search_glob := join cwd (pystr "lib" ++ library ++ pystr ".so*") in
  filenames <- call_glob w search_glob ;;
  local_first_file w filenames.

(** [find_library(library)] *)
Definition find_library (w : World) (library : list N)
  : M (option (list N)) :=
  py_or (_ldconfig_search w library)
        (py_or (_gcc_search w library) (_local_search w library)).

(** The command line of [soname]: [objdump -x -j .dynamic {}] *)
Definition objdump_command (library_path : list N) : list N :=
  pystr "objdump -x -j .dynamic " ++ library_path.

(** The pattern of [soname]: [\sSONAME\s+([^\s]+)] *)
Definition soname_expr : list atom :=
  [Cls isspace] ++ verbatim (pystr "SONAME")
  ++ [Plus isspace; GroupOpen; Plus notspace; GroupClose].

(** [soname(library_path)] *)
Definition soname (w : World) (library_path : list N)
  : M (option (list N)) :=
  emit (EvIsfile library_path) ;;;
  if negb (isfile w library_path)
  then raise (AssertionError (pystr "No such file " ++ library_path))
  else
    dump <- _execute w (objdump_command library_path) ;;
    match dump with
    | None => ret None
    | Some dump =>
        match search soname_expr dump with
        | None => ret None
        | Some m => ret (group1 m)
        end
    end.

(** ** Logs *)

(** Events that neither create nor release a temporary file. *)
Definition quiet_event (ev : event) : bool :=
  match ev with
  | EvTmpOpen _ | EvTmpClose _ => false
  | _ => true
  end.

(** [c] only adds events to the log, and none of them opens or closes a
    temporary file. *)
Definition quiet {A} (c : M A) : Prop :=
  forall st, exists evs,
    snd (c st) = evs ++ st /\ forallb quiet_event evs = true.

(** [sub] occurs somewhere in [text]. *)
Definition contains (sub text : list N) : Prop :=
  exists pre post, text = pre ++ sub ++ post.

(** The pattern [r] matches nowhere in [text] at a position before [n]. *)
Definition no_match_before (r : list atom) (text : list N) (n : nat) : Prop :=
  forall j, j < n -> match_here r (None, None) j (drop j text) = None.

(** The text is over, or goes on with a character satisfying [p]. *)
Definition ends_or_next (p : N -> bool) (post : list N) : Prop :=
  match post with
  | [] => True
  | c :: _ => p c = true
  end.

(** ** Some worlds *)

(** The bytes of a text made of ASCII characters. *)
Definition ascii_bytes (s : list N) : list Byte.byte :=
  List.map (fun c => default Byte.x00 (Byte.of_N c)) s.

Fixpoint assoc (k : list N) (l : list (list N * list N)) : option (list N) :=
  match l with
  | [] => None
  | (k', v) :: l' => if str_eqb k' k then Some v else assoc k l'
  end.

(** A machine with the given executables on its path and regular files;
    [run] says what starting a command does, [tmp] what creating a
    temporary file does.  Nothing is a symbolic link. *)
Definition make_world (machine : list N) (long : Z)
  (execs : list (list N * list N))
  (run : list (list N) -> spawn_error + list Byte.byte)
  (tmp : Z + list N) (files : list (list N)) : World :=
  {| uname_machine := machine;
     calcsize_l := long;
     find_executable := fun name => assoc name execs;
     popen := run;
     mktemp := tmp;
     tmp_close := fun _ => None;
     getcwd := inr (pystr "/home/user");
     glob := fun _ => inr [];
     isfile := fun path => existsb (str_eqb path) files;
     links := ∅;
     recursion_limit := 1000 |}.

Definition no_such_command : list (list N) -> spawn_error + list Byte.byte :=
  fun _ => inl (SpawnOSError ENOENT).

(** First argument [exe]: the child prints [out]; anything else is not
    found. *)
Definition prints (exe out : list N)
  : list (list N) -> spawn_error + list Byte.byte :=
  fun args =>
    match args with
    | a :: _ => if str_eqb a exe then inr (ascii_bytes out)
                else inl (SpawnOSError ENOENT)
    | [] => inl (SpawnOSError ENOENT)
    end.

Definition tmp_name : list N := pystr "/tmp/tmpk3v9x_2a".

(** Nothing installed, no file anywhere. *)
Definition bare_world : World :=
  make_world (pystr "x86_64") 8 [] no_such_command (inr tmp_name) [].

(** A 32-bit ARM machine, nothing installed. *)
Definition arm_world : World :=
  make_world (pystr "armv7l") 4 [] no_such_command (inr tmp_name) [].

Definition libm_line : list N :=
  pystr "libm.so.6 (libc6,x86-64, OS ABI: Linux 2.6.24) => /lib/x86_64-linux-gnu/libm.so.6".

Definition libm_path : list N := pystr "/lib/x86_64-linux-gnu/libm.so.6".

(** [ldconfig] is installed and [ldconfig -p] prints [listing]. *)
Definition ldconfig_world (listing : list N) : World :=
  make_world (pystr "x86_64") 8
    [(pystr "ldconfig", pystr "/sbin/ldconfig")]
    (prints (pystr "/sbin/ldconfig") listing) (inr tmp_name) [].

(** Only [cc] is installed, and the linker trace it prints is [trace]. *)
Definition cc_world (trace : list N) : World :=
  make_world (pystr "x86_64") 8
    [(pystr "cc", pystr "/usr/bin/cc")]
    (prints (pystr "/usr/bin/cc") trace) (inr tmp_name) [].

(** Only [cc] is installed, and no temporary directory is usable:
    [NamedTemporaryFile()] raises [FileNotFoundError]. *)
Definition notmp_world : World :=
  make_world (pystr "x86_64") 8
    [(pystr "cc", pystr "/usr/bin/cc")]
    (prints (pystr "/usr/bin/cc") []) (inl ENOENT) [].

(** [libm_path] is a regular file and [objdump] prints [dump]. *)
Definition objdump_world (dump : list N) : World :=
  make_world (pystr "x86_64") 8 [] (prints (pystr "objdump") dump)
    (inr tmp_name) [libm_path].

(** What [cc -Wl,-t ... -lm] prints when [libm] is installed. *)
Definition libm_trace : list N :=
  pystr "/usr/bin/ld: mode elf_x86_64" ++ [10%N]
  ++ pystr "/usr/lib/x86_64-linux-gnu/libm.so" ++ [10%N].

(** What [objdump -x -j .dynamic] prints for [libm]. *)
Definition libm_dump : list N :=
  [10%N] ++ pystr "Dynamic Section:" ++ [10%N]
  ++ pystr "  NEEDED               libc.so.6" ++ [10%N]
  ++ pystr "  SONAME               libm.so.6" ++ [10%N].

Definition ENOMEM : Z := 12.

(** [ldconfig] and [cc] are installed and [libm_path] is a regular file,
    but no process can be started: [fork] fails for lack of memory. *)
Definition nofork_world : World :=
  make_world (pystr "x86_64") 8
    [(pystr "ldconfig", pystr "/sbin/ldconfig");
     (pystr "cc", pystr "/usr/bin/cc")]
    (fun _ => inl (SpawnOSError ENOMEM))
    (inr tmp_name) [libm_path].

(** ** More about exceptions, logs and worlds *)




(** Events that start a process or touch a temporary file. *)
Definition heavy_event (ev : event) : bool :=
  match ev with
  | EvPopen _ | EvTmpOpen _ | EvTmpClose _ => true
  | _ => false
  end.

(** The name [glob] is asked for by [_local_search] in the working
    directory [cwd]. *)
Definition local_glob (cwd library : list N) : list N :=
  join cwd (pystr "lib" ++ library ++ pystr ".so*").

(** The text every match of either pattern contains:
    [lib], the name, a dot. *)
Definition needle (library : list N) : list N :=
  pystr "lib" ++ library ++ [46%N].

Definition EACCES : Z := 13.

(** No tool is installed; the working directory holds a directory
    [libfoo.so.d] and a regular file [libfoo.so.1]. *)
Definition local_world : World :=
  {| uname_machine := pystr "x86_64";
     calcsize_l := 8;
     find_executable := fun _ => None;
     popen := no_such_command;
     mktemp := inr tmp_name;
     tmp_close := fun _ => None;
     getcwd := inr (pystr "/home/user");
     glob := fun pattern =>
       if str_eqb pattern (pystr "/home/user/libfoo.so*")
       then inr [pystr "/home/user/libfoo.so.d";
                 pystr "/home/user/libfoo.so.1"]
       else inr [];
     isfile := fun path => str_eqb path (pystr "/home/user/libfoo.so.1");
     links := ∅;
     recursion_limit := 1000 |}.

(** As [local_world], but [ldconfig] is installed and prints a byte that is
    not UTF-8. *)
Definition latin1_world : World :=
  {| uname_machine := pystr "x86_64";
     calcsize_l := 8;
     find_executable := fun name =>
       if str_eqb name (pystr "ldconfig") then Some (pystr "/sbin/ldconfig")
       else None;
     popen := fun _ => inr [Byte.x6c; Byte.x69; Byte.x62; Byte.xe9];
     mktemp := inr tmp_name;
     tmp_close := fun _ => None;
     getcwd := inr (pystr "/home/user");
     glob := glob local_world;
     isfile := isfile local_world;
     links := ∅;
     recursion_limit := 1000 |}.

(** Only [cc] is installed; it prints [trace] and, the link having failed,
    removes its output file: closing the temporary file raises [errno]. *)
Definition cc_close_world (trace : list N) (errno : Z) : World :=
  {| uname_machine := pystr "x86_64";
     calcsize_l := 8;
     find_executable := fun name => assoc name [(pystr "cc", pystr "/usr/bin/cc")];
     popen := prints (pystr "/usr/bin/cc") trace;
     mktemp := inr tmp_name;
     tmp_close := fun _ => Some errno;
     getcwd := inr (pystr "/home/user");
     glob := fun _ => inr [];
     isfile := fun _ => false;
     links := ∅;
     recursion_limit := 1000 |}.

(** Only [gcc] is installed, under that name. *)
Definition gcc_world (trace : list N) : World :=
  make_world (pystr "x86_64") 8
    [(pystr "gcc", pystr "/usr/bin/gcc")]
    (prints (pystr "/usr/bin/gcc") trace) (inr tmp_name) [].

(** Only [cc] is installed, and the temporary directory is not writable. *)
Definition readonly_tmp_world : World :=
  make_world (pystr "x86_64") 8
    [(pystr "cc", pystr "/usr/bin/cc")]
    (prints (pystr "/usr/bin/cc") []) (inl EACCES) [].

(** [sub in text] *)
Fixpoint occurs (sub text : list N) : bool :=
  startswith sub text
  || match text with
     | [] => false
     | _ :: text' => occurs sub text'
     end.

(** A line of [ldconfig -p] for [libssl], with blanks at its end. *)
Definition libssl_line : list N :=
  pystr "libssl.so.3 (libc6,x86-64) => /usr/lib/x86_64-linux-gnu/libssl.so.3  ".


(** A library under a directory with a blank in its name; [objdump] is
    installed. *)
Definition spaced_path : list N := pystr "/opt/my libs/libq.so".

Definition spaced_world : World :=
  make_world (pystr "x86_64") 8 [] (prints (pystr "objdump") libm_dump)
    (inr tmp_name) [spaced_path].

(** As [local_world], but the working directory was removed:
    [os.getcwd()] raises [FileNotFoundError]. *)
Definition nocwd_world : World :=
  {| uname_machine := pystr "x86_64";
     calcsize_l := 8;
     find_executable := fun _ => None;
     popen := no_such_command;
     mktemp := inr tmp_name;
     tmp_close := fun _ => None;
     getcwd := inl ENOENT;
     glob := glob local_world;
     isfile := isfile local_world;
     links := ∅;
     recursion_limit := 1000 |}.

(** ** Resolved paths *)

(** A component of a resolved path: a name other than [.] and [..],
    without a slash or a NUL in it. *)
Definition name_ok (c : list N) : Prop :=
  c <> [] /\ c <> pystr "." /\ c <> pystr ".." /\ (47%N ∉ c) /\ (0%N ∉ c).

Definition name_okb (c : list N) : bool :=
  negb (str_eqb c []) && negb (str_eqb c (pystr "."))
  && negb (str_eqb c (pystr ".."))
  && forallb (fun x => negb (x =? 47)%N && negb (x =? 0)%N) c.

(** Where the walk of [realpath] stands: on an absolute path, given by its
    components (the last one first), or on a relative one, [k] steps up
    from the working directory and then down the components. *)
Inductive wpath :=
| WAbs (stack : list (list N))
| WRel (k : nat) (stack : list (list N)).

Definition abs_render (stack : list (list N)) : list N :=
  sep ++ join_str sep (rev stack).

Definition rel_render (k : nat) (stack : list (list N)) : list N :=
  join_str sep (replicate k (pystr "..") ++ rev stack).

Definition render (s : wpath) : list N :=
  match s with
  | WAbs stack => abs_render stack
  | WRel k stack => rel_render k stack
  end.

Definition wnames (s : wpath) : list (list N) :=
  match s with
  | WAbs stack => stack
  | WRel _ stack => stack
  end.

Definition wpush (name : list N) (s : wpath) : wpath :=
  match s with
  | WAbs stack => WAbs (name :: stack)
  | WRel k stack => WRel k (name :: stack)
  end.


(** No component of the absolute path with the components [stack] is a
    symbolic link. *)
Definition link_free (w : World) (stack : list (list N)) : Prop :=
  forall above below,
    stack = above ++ below -> below <> [] ->
    links w !! abs_render below = None.

(** The place a position stands for, the working directory having the
    components [cstack]. *)
Definition wkey (cstack : list (list N)) (s : wpath) : list (list N) :=
  match s with
  | WAbs stack => stack
  | WRel k stack => stack ++ drop k cstack
  end.





(** The exceptions of the walk. *)
Definition walk_exn (e : exn) : bool :=
  match e with
  | ValueError _ | RecursionError => true
  | _ => false
  end.

(** As [nofork_world], and the temporary file cannot be removed: closing
    it raises [PermissionError]. *)
Definition nofork_close_world : World :=
  {| uname_machine := uname_machine nofork_world;
     calcsize_l := calcsize_l nofork_world;
     find_executable := find_executable nofork_world;
     popen := popen nofork_world;
     mktemp := mktemp nofork_world;
     tmp_close := fun _ => Some EACCES;
     getcwd := getcwd nofork_world;
     glob := glob nofork_world;
     isfile := isfile nofork_world;
     links := links nofork_world;
     recursion_limit := recursion_limit nofork_world |}.

(** ** Worlds with symbolic links *)





(** * Properties *)

(** ** Text *)

Lemma str_eqb_eq (a b : list N) : str_eqb a b = true <-> a = b.
Proof.
  revert b; induction a as [|x a IH]; intros [|y b]; simpl; try easy.
  rewrite andb_true_iff, N.eqb_eq, IH. split.
  - now intros [-> ->].
  - intros H; injection H; auto.
Qed.

Lemma str_eqb_refl (a : list N) : str_eqb a a = true.
Proof. now apply str_eqb_eq. Qed.

Lemma str_eqb_neq (a b : list N) : str_eqb a b = false <-> a <> b.
Proof.
  rewrite <- str_eqb_eq. destruct (str_eqb a b); split; congruence.
Qed.

(** ** C4: the ABI table *)

Lemma abi_map_lookup (machine arch : list N) :
  abi_map !! (machine, arch) =
    if str_eqb arch (pystr "64") then
      if str_eqb machine (pystr "x86_64") then Some (pystr "libc6,x86-64")
      else if str_eqb machine (pystr "ppc64") then Some (pystr "libc6,64bit")
      else if str_eqb machine (pystr "sparc64") then Some (pystr "libc6,64bit")
      else if str_eqb machine (pystr "s390x") then Some (pystr "libc6,64bit")
      else if str_eqb machine (pystr "ia64") then Some (pystr "libc6,IA-64")
      else None
    else None.
Proof.
  unfold abi_map. cbn [list_to_map foldr uncurry fst snd].
  destruct (str_eqb arch (pystr "64")) eqn:Ha.
  - apply str_eqb_eq in Ha as ->.
    repeat match goal with
    | |- context [str_eqb machine ?s] =>
        let E := fresh "E" in
        destruct (str_eqb machine s) eqn:E;
        [ apply str_eqb_eq in E as ->; now simplify_map_eq
        | apply str_eqb_neq in E ]
    end.
    rewrite !lookup_insert_ne by congruence. apply lookup_empty.
  - apply str_eqb_neq in Ha.
    rewrite !lookup_insert_ne by congruence. apply lookup_empty.
Qed.

(** C4.  [_abi_type] depends only on the machine string and on whether
    [calcsize('l')] is 4; with a width other than 4 (arch ['64']) it maps
    x86_64, ppc64, sparc64, s390x and ia64 to their tags, and every other
    pair (a width of 4, or any other machine) to the generic ['libc6']. *)
Theorem abi_type_table (w : World) :
  (forall w', uname_machine w' = uname_machine w ->
              (calcsize_l w' =? 4)%Z = (calcsize_l w =? 4)%Z ->
              _abi_type w' = _abi_type w)
  /\ (calcsize_l w <> 4%Z ->
      (uname_machine w = pystr "x86_64" ->
       _abi_type w = pystr "libc6,x86-64")
      /\ (uname_machine w = pystr "ppc64" ->
          _abi_type w = pystr "libc6,64bit")
      /\ (uname_machine w = pystr "sparc64" ->
          _abi_type w = pystr "libc6,64bit")
      /\ (uname_machine w = pystr "s390x" ->
          _abi_type w = pystr "libc6,64bit")
      /\ (uname_machine w = pystr "ia64" ->
          _abi_type w = pystr "libc6,IA-64"))
  /\ (calcsize_l w = 4%Z
      \/ uname_machine w ∉ [pystr "x86_64"; pystr "ppc64"; pystr "sparc64";
                            pystr "s390x"; pystr "ia64"] ->
      _abi_type w = pystr "libc6").
Proof.
  split; [|split].
  - intros w' Hm Hc. unfold _abi_type. now rewrite Hm, Hc.
  - intros Hc. apply Z.eqb_neq in Hc. unfold _abi_type. rewrite Hc.
    repeat split; intros ->; now rewrite abi_map_lookup.
  - intros H. unfold _abi_type. rewrite abi_map_lookup.
    destruct H as [-> | H]; [reflexivity|].
    destruct (calcsize_l w =? 4)%Z; [reflexivity|].
    simpl str_eqb.
    repeat match goal with
    | |- context [str_eqb (uname_machine w) ?s] =>
        let E := fresh "E" in
        destruct (str_eqb (uname_machine w) s) eqn:E;
        [ apply str_eqb_eq in E; exfalso; apply H; rewrite E;
          repeat first [ apply list_elem_of_here | apply list_elem_of_further ]
        | ]
    end.
    reflexivity.
Qed.

Lemma abi_type_table_witness :
  _abi_type bare_world = pystr "libc6,x86-64"
  /\ _abi_type arm_world = pystr "libc6".
Proof.
  split.
  - apply (proj1 (proj1 (proj2 (abi_type_table bare_world)) ltac:(discriminate))).
    reflexivity.
  - apply (proj2 (proj2 (abi_type_table arm_world))).
    left. reflexivity.
Defined.

(** ** Running commands *)

(** Unfold the monad and split on everything the outcome depends on. *)
Ltac run :=
  unfold try_except_OSError, bind, ret, raise, emit in *; simpl in *.

Lemma execute_split_error (w : World) (command : list N) (msg : string)
  (st : list event) :
  shsplit command = inl msg ->
  _execute w command st = (Raise (ValueError msg), st).
Proof. intros H. unfold _execute. run. now rewrite H. Qed.

Lemma execute_spawn_OSError (w : World) (command : list N)
  (args : list (list N)) (errno : Z) (st : list event) :
  shsplit command = inr args ->
  popen w args = inl (SpawnOSError errno) ->
  _execute w command st = (Return None, EvLogDebug :: EvPopen args :: st).
Proof. intros H1 H2. unfold _execute. run. now rewrite H1, H2. Qed.

Lemma execute_spawn_ValueError (w : World) (command : list N)
  (args : list (list N)) (msg : string) (st : list event) :
  shsplit command = inr args ->
  popen w args = inl (SpawnValueError msg) ->
  _execute w command st = (Raise (ValueError msg), EvPopen args :: st).
Proof. intros H1 H2. unfold _execute. run. now rewrite H1, H2. Qed.

Lemma execute_output (w : World) (command : list N)
  (args : list (list N)) (pstdout : list Byte.byte) (st : list event) :
  shsplit command = inr args ->
  popen w args = inr pstdout ->
  _execute w command st =
    (match decode pstdout with
     | Some text => Return (Some text)
     | None => Raise UnicodeDecodeError
     end, EvPopen args :: st).
Proof.
  intros H1 H2. unfold _execute. run. rewrite H1, H2.
  now destruct (decode pstdout).
Qed.

(** What [_execute] can do: the four cases above are all there is. *)
Lemma execute_cases (w : World) (command : list N) (st : list event) :
  (exists msg, _execute w command st = (Raise (ValueError msg), st))
  \/ (exists args,
        _execute w command st
        = (Return None, EvLogDebug :: EvPopen args :: st))
  \/ (exists args r,
        _execute w command st = (r, EvPopen args :: st)
        /\ ((exists msg, r = Raise (ValueError msg))
            \/ r = Raise UnicodeDecodeError
            \/ exists text, r = Return (Some text))).
Proof.
  destruct (shsplit command) as [msg|args] eqn:H1.
  { left. exists msg. now apply execute_split_error. }
  right. destruct (popen w args) as [[errno|msg]|pstdout] eqn:H2.
  - left. exists args. now apply execute_spawn_OSError with errno.
  - right. exists args. eexists. split.
    + eapply execute_spawn_ValueError; eassumption.
    + left. now exists msg.
  - right. exists args. eexists. split.
    + eapply execute_output; eassumption.
    + destruct (decode pstdout) as [text|]; eauto.
Qed.

(** ** C3: a process that cannot be started *)

(** C3, as stated, fails: in [nofork_world] starting [objdump] raises
    [OSError(ENOMEM)], which is neither "tool absent" nor a nonzero exit,
    and [soname] returns [None] instead of raising. *)
Lemma spawn_failure_is_swallowed :
  popen nofork_world
    [pystr "objdump"; pystr "-x"; pystr "-j"; pystr ".dynamic"; libm_path]
    = inl (SpawnOSError ENOMEM)
  /\ ENOMEM <> ENOENT
  /\ isfile nofork_world libm_path = true
  /\ fst (soname nofork_world libm_path []) = Return None
  /\ ~ (exists e, fst (soname nofork_world libm_path []) = Raise e).
Proof.
  repeat split; try reflexivity; try discriminate.
  intros [e H]. vm_compute in H. discriminate.
Qed.

(** C3, amended.  When [Popen] raises an [OSError], whatever its [errno]
    (tool absent, or the process could not be started at all), the error
    does not reach the caller: [_execute] logs it and returns [None], and
    so [soname] and [_ldconfig_search] return [None].  [_gcc_search]
    returns [None] too, unless closing its temporary file then fails with
    an [errno] other than [ENOENT]: what it raises in that case is the
    error of the temporary file, not the one of [Popen]. *)
Theorem spawn_OSError_gives_absent (w : World) (errno : Z) :
  (forall command args st,
     shsplit command = inr args ->
     popen w args = inl (SpawnOSError errno) ->
     _execute w command st
     = (Return None, EvLogDebug :: EvPopen args :: st))
  /\ (forall library_path args st,
        isfile w library_path = true ->
        shsplit (objdump_command library_path) = inr args ->
        popen w args = inl (SpawnOSError errno) ->
        fst (soname w library_path st) = Return None)
  /\ (forall library executable args st,
        find_executable w (pystr "ldconfig") = Some executable ->
        shsplit (executable ++ pystr " -p") = inr args ->
        popen w args = inl (SpawnOSError errno) ->
        fst (_ldconfig_search w library st) = Return None)
  /\ (forall library linker tmp args st st1,
        find_linker w st = (Return (Some linker), st1) ->
        mktemp w = inr tmp ->
        shsplit (gcc_command linker tmp library) = inr args ->
        popen w args = inl (SpawnOSError errno) ->
        fst (_gcc_search w library st)
        = match tmp_close w tmp with
          | Some errno' =>
              if (errno' =? ENOENT)%Z then Return None
              else Raise (OSError errno')
          | None => Return None
          end).
Proof.
  split; [|split; [|split]].
  - intros command args st. apply execute_spawn_OSError.
  - intros library_path args st Hfile Hsplit Hp. unfold soname.
    unfold bind at 1, emit at 1. rewrite Hfile. cbn [negb].
    unfold bind.
    now rewrite (execute_spawn_OSError _ _ _ _ _ Hsplit Hp).
  - intros library executable args st Hexe Hsplit Hp.
    unfold _ldconfig_search, call_find_executable.
    unfold bind at 1 2, emit at 1, ret at 1. rewrite Hexe.
    unfold bind.
    now rewrite (execute_spawn_OSError _ _ _ _ _ Hsplit Hp).
  - intros library linker tmp args st st1 Hl Hm Hsplit Hp.
    unfold _gcc_search. unfold bind at 1. rewrite Hl.
    unfold gcc_with_block, call_mktemp. rewrite Hm.
    unfold bind at 1, emit at 1, ret at 1.
    rewrite (execute_spawn_OSError _ _ _ _ _ Hsplit Hp).
    unfold call_tmp_close, bind, emit, ret, raise.
    destruct (tmp_close w tmp) as [errno'|]; [|reflexivity].
    cbn beta iota. now destruct (errno' =? ENOENT)%Z.
Qed.

Lemma spawn_OSError_gives_absent_witness :
  fst (_execute nofork_world (pystr "ls -l") []) = Return None
  /\ fst (soname nofork_world libm_path []) = Return None
  /\ fst (_ldconfig_search nofork_world (pystr "m") []) = Return None
  /\ fst (_gcc_search nofork_world (pystr "m") []) = Return None
  /\ fst (_gcc_search nofork_close_world (pystr "m") [])
     = Raise (OSError EACCES).
Proof.
  pose proof (spawn_OSError_gives_absent nofork_world ENOMEM)
    as (H1 & H2 & H3 & H4).
  pose proof (spawn_OSError_gives_absent nofork_close_world ENOMEM)
    as (_ & _ & _ & H5).
  split; [|split; [|split; [|split]]].
  - now rewrite (H1 (pystr "ls -l") [pystr "ls"; pystr "-l"] []).
  - exact (H2 libm_path _ [] eq_refl eq_refl eq_refl).
  - exact (H3 (pystr "m") (pystr "/sbin/ldconfig") _ [] eq_refl eq_refl
             eq_refl).
  - exact (H4 (pystr "m") (pystr "/usr/bin/cc") tmp_name _ []
             [EvFindExecutable (pystr "cc")] eq_refl eq_refl eq_refl
             eq_refl).
  - exact (H5 (pystr "m") (pystr "/usr/bin/cc") tmp_name _ []
             [EvFindExecutable (pystr "cc")] eq_refl eq_refl eq_refl
             eq_refl).
Defined.

(** ** C6: the precondition of [soname] *)

Lemma execute_no_AssertionError (w : World) (command : list N)
  (st : list event) (msg : list N) :
  fst (_execute w command st) <> Raise (AssertionError msg).
Proof.
  destruct (execute_cases w command st)
    as [[m ->] | [[args ->] | (args & r & -> & [[m ->] | [-> | [t ->]]])]];
    simpl; discriminate.
Qed.

(** C6.  On a path that is not an existing regular file [soname] raises
    [AssertionError] (with the message ['No such file <path>']), which is
    not the [None] it returns when no SONAME is found; on an existing
    regular file it never raises [AssertionError]. *)
Theorem soname_precondition (w : World) (library_path : list N)
  (st : list event) :
  (isfile w library_path = false ->
   soname w library_path st
   = (Raise (AssertionError (pystr "No such file " ++ library_path)),
      EvIsfile library_path :: st)
   /\ fst (soname w library_path st) <> Return None)
  /\ (isfile w library_path = true ->
      forall msg, fst (soname w library_path st)
                  <> Raise (AssertionError msg)).
Proof.
  split.
  - intros H. unfold soname. run. rewrite H. simpl. split; [reflexivity|discriminate].
  - intros H msg. unfold soname.
    unfold bind at 1. unfold emit at 1. rewrite H. cbn [negb].
    unfold bind.
    pose proof (execute_no_AssertionError w
      (objdump_command library_path)
      (EvIsfile library_path :: st) msg) as Hx.
    destruct (_execute w _ _) as [[[dump|]|e] st'].
    + destruct (search soname_expr dump); simpl; discriminate.
    + simpl; discriminate.
    + exact Hx.
Qed.

Lemma soname_precondition_witness :
  fst (soname bare_world (pystr "/nonexistent/libq.so") [])
  = Raise (AssertionError (pystr "No such file /nonexistent/libq.so"))
  /\ (forall msg, fst (soname (objdump_world []) libm_path [])
                  <> Raise (AssertionError msg)).
Proof.
  split.
  - pose proof (proj1 (soname_precondition bare_world
                         (pystr "/nonexistent/libq.so") []) eq_refl) as [H _].
    now rewrite H.
  - exact (proj2 (soname_precondition (objdump_world []) libm_path [])
             eq_refl).
Defined.

(** ** [normpath] is idempotent *)

Lemma split_go_char (c x : N) (cur s : list N) :
  split_go [c] 0 cur (x :: s)
  = if (c =? x)%N then rev cur :: split_go [c] 0 [] s
    else split_go [c] 0 (x :: cur) s.
Proof. simpl. now destruct (c =? x)%N. Qed.

Lemma split_go_comp (c : N) (cur comp : list N) :
  c ∉ comp -> split_go [c] 0 cur comp = [rev cur ++ comp].
Proof.
  revert cur. induction comp as [|x comp IH]; intros cur H.
  - simpl. now rewrite app_nil_r.
  - apply not_elem_of_cons in H as [Hx H].
    rewrite split_go_char.
    destruct (c =? x)%N eqn:E; [apply N.eqb_eq in E; congruence|].
    rewrite IH by assumption. simpl. now rewrite <- app_assoc.
Qed.

Lemma split_go_comp_sep (c : N) (cur comp rest : list N) :
  c ∉ comp ->
  split_go [c] 0 cur (comp ++ c :: rest)
  = (rev cur ++ comp) :: split_go [c] 0 [] rest.
Proof.
  revert cur. induction comp as [|x comp IH]; intros cur H.
  - cbn [app]. rewrite split_go_char, N.eqb_refl. now rewrite app_nil_r.
  - apply not_elem_of_cons in H as [Hx H].
    cbn [app]. rewrite split_go_char.
    destruct (c =? x)%N eqn:E; [apply N.eqb_eq in E; congruence|].
    rewrite IH by assumption. simpl. now rewrite <- app_assoc.
Qed.

(** Splitting what was joined gives the parts back. *)
Lemma split_join (c : N) (l : list (list N)) :
  l <> [] -> Forall (fun comp => c ∉ comp) l ->
  split [c] (join_str [c] l) = l.
Proof.
  unfold split. induction l as [|p l IH]; [congruence|].
  intros _ H. apply Forall_cons in H as [Hp Hl].
  destruct l as [|q l].
  - simpl. now rewrite split_go_comp.
  - change (join_str [c] (p :: q :: l))
      with (p ++ c :: join_str [c] (q :: l)).
    rewrite split_go_comp_sep by assumption.
    rewrite IH by (auto; congruence). reflexivity.
Qed.

Lemma not_elem_of_rev (c : N) (l : list N) : c ∉ l -> c ∉ rev l.
Proof. rewrite !list_elem_of_In. now rewrite <- in_rev. Qed.

(** No part of a split contains the separator. *)
Lemma split_go_no_sep (c : N) (cur s : list N) :
  c ∉ cur -> Forall (fun comp => c ∉ comp) (split_go [c] 0 cur s).
Proof.
  revert cur. induction s as [|x s IH]; intros cur H.
  - simpl. constructor; [|constructor]. now apply not_elem_of_rev.
  - rewrite split_go_char. destruct (c =? x)%N eqn:E.
    + constructor.
      * now apply not_elem_of_rev.
      * apply IH. apply not_elem_of_nil.
    + apply IH. apply not_elem_of_cons. split; [|assumption].
      now apply N.eqb_neq in E.
Qed.

Lemma split_no_sep (c : N) (s : list N) :
  Forall (fun comp => c ∉ comp) (split [c] s).
Proof. apply split_go_no_sep, not_elem_of_nil. Qed.

(** The three things the loop body of [normpath] does. *)
Lemma normpath_step_skip (k : nat) (stack : list (list N)) (comp : list N) :
  comp = [] \/ comp = pystr "." -> normpath_step k stack comp = stack.
Proof. now intros [-> | ->]. Qed.

Lemma normpath_step_push (k : nat) (stack : list (list N)) (comp : list N) :
  comp <> [] -> comp <> pystr "." -> comp <> pystr ".." ->
  normpath_step k stack comp = comp :: stack.
Proof.
  intros H1 H2 H3. unfold normpath_step.
  apply str_eqb_neq in H1, H2, H3. now rewrite H1, H2, H3.
Qed.

Lemma normpath_step_dotdot (k : nat) (stack : list (list N)) :
  normpath_step k stack (pystr "..")
  = match stack with
    | [] => if (k =? 0)%nat then [pystr ".."] else []
    | top :: rest =>
        if str_eqb top (pystr "..") then pystr ".." :: stack else rest
    end.
Proof.
  unfold normpath_step. change (str_eqb (pystr "..") []) with false.
  change (str_eqb (pystr "..") (pystr ".")) with false.
  change (str_eqb (pystr "..") (pystr "..")) with true.
  cbn [negb orb].
  destruct stack as [|top rest].
  - now destruct (k =? 0)%nat.
  - rewrite andb_false_r. cbn [orb]. reflexivity.
Qed.

Lemma clean_dotdot : clean (pystr "..").
Proof.
  repeat split; try discriminate.
  intros H. repeat (apply elem_of_cons in H as [H|H]; [discriminate|]).
  now apply not_elem_of_nil in H.
Qed.

Lemma stack_ok_nil (k : nat) : stack_ok k [].
Proof.
  split; [constructor|]. exists 0, []. repeat split.
  apply not_elem_of_nil.
Qed.

(** The loop body keeps the stack in shape. *)
Lemma normpath_step_ok (k : nat) (stack : list (list N)) (comp : list N) :
  47%N ∉ comp -> stack_ok k stack -> stack_ok k (normpath_step k stack comp).
Proof.
  intros Hsep [Hclean (n & rest & Hstack & Hrest & Hk)].
  destruct (decide (comp = [])) as [->|H1]; [now split; eauto 6|].
  destruct (decide (comp = pystr ".")) as [->|H2]; [now split; eauto 6|].
  destruct (decide (comp = pystr "..")) as [->|H3].
  - rewrite normpath_step_dotdot. destruct stack as [|top t].
    + destruct (k =? 0)%nat eqn:E; [|apply stack_ok_nil].
      apply Nat.eqb_eq in E. split.
      * constructor; [apply clean_dotdot|constructor].
      * exists 1, []. repeat split; [apply not_elem_of_nil|congruence].
    + apply Forall_cons in Hclean as [Htop Ht].
      destruct (str_eqb top (pystr "..")) eqn:E.
      * apply str_eqb_eq in E as ->.
        destruct rest as [|r rest'].
        -- cbn [app] in Hstack. split.
           ++ constructor; [apply clean_dotdot|].
              constructor; [apply clean_dotdot|assumption].
           ++ exists (S n), []. cbn [app]. repeat split.
              ** cbn [replicate]. now rewrite <- Hstack.
              ** apply not_elem_of_nil.
              ** intros Hk'. specialize (Hk Hk'). subst n. discriminate.
        -- cbn [app] in Hstack. injection Hstack as <- _.
           exfalso. apply Hrest. apply list_elem_of_here.
      * apply str_eqb_neq in E. split; [assumption|].
        destruct rest as [|r rest'].
        -- cbn [app] in Hstack. destruct n as [|n]; [discriminate|].
           cbn [replicate] in Hstack. injection Hstack as -> _. congruence.
        -- cbn [app] in Hstack. injection Hstack as -> ->.
           exists n, rest'. repeat split; [|assumption].
           now apply not_elem_of_cons in Hrest as [_ Hrest].
  - rewrite normpath_step_push by assumption. split.
    + constructor; [repeat split; assumption|assumption].
    + exists n, (comp :: rest). repeat split; [ |  |assumption].
      * cbn [app]. now rewrite Hstack.
      * apply not_elem_of_cons. split; [congruence|assumption].
Qed.

Lemma normpath_fold_ok (k : nat) (comps stack : list (list N)) :
  Forall (fun comp => 47%N ∉ comp) comps -> stack_ok k stack ->
  stack_ok k (fold_left (normpath_step k) comps stack).
Proof.
  revert stack. induction comps as [|comp comps IH]; intros stack H Hok.
  - exact Hok.
  - apply Forall_cons in H as [Hc H]. simpl. apply IH; [assumption|].
    now apply normpath_step_ok.
Qed.

(** Going through an already normalised list of components rebuilds the
    same stack. *)
Lemma normpath_fold_dotdots (n m : nat) :
  fold_left (normpath_step 0) (replicate n (pystr "..")) (replicate m (pystr ".."))
  = replicate (n + m) (pystr "..").
Proof.
  revert m. induction n as [|n IH]; intros m; [reflexivity|].
  cbn [replicate fold_left]. rewrite normpath_step_dotdot.
  replace (match replicate m (pystr "..") with
           | [] => if (0 =? 0)%nat then [pystr ".."] else []
           | top :: rest =>
               if str_eqb top (pystr "..")
               then pystr ".." :: replicate m (pystr "..")
               else rest
           end) with (replicate (S m) (pystr "..")).
  - rewrite IH. f_equal. lia.
  - destruct m; reflexivity.
Qed.

Lemma normpath_fold_push (k : nat) (l stack : list (list N)) :
  Forall clean l -> (pystr "..") ∉ l ->
  fold_left (normpath_step k) l stack = rev l ++ stack.
Proof.
  revert stack. induction l as [|comp l IH]; intros stack Hc Hd.
  - reflexivity.
  - apply Forall_cons in Hc as [(H1 & H2 & _) Hc].
    apply not_elem_of_cons in Hd as [H3 Hd].
    cbn [fold_left]. rewrite normpath_step_push by congruence.
    rewrite IH by assumption. simpl. now rewrite <- app_assoc.
Qed.

Lemma rev_replicate {A} (n : nat) (x : A) :
  rev (replicate n x) = replicate n x.
Proof.
  induction n as [|n IH]; [reflexivity|].
  simpl. rewrite IH. symmetry. apply replicate_cons_app.
Qed.

Lemma normpath_refold (k : nat) (stack : list (list N)) :
  stack_ok k stack ->
  fold_left (normpath_step k) (rev stack) [] = stack.
Proof.
  intros [Hclean (n & rest & -> & Hrest & Hk)].
  rewrite rev_app_distr, rev_replicate, fold_left_app.
  assert (E : fold_left (normpath_step k) (replicate n (pystr "..")) []
              = replicate n (pystr "..")).
  { destruct (decide (k = 0)) as [->|Hk'].
    - change (@nil (list N)) with (replicate 0 (pystr "..")) at 1.
      rewrite normpath_fold_dotdots. f_equal. lia.
    - now rewrite (Hk Hk'). }
  rewrite E. apply Forall_app in Hclean as [Hr _].
  rewrite normpath_fold_push.
  - now rewrite rev_involutive.
  - apply Forall_forall. intros x Hx.
    rewrite list_elem_of_In, <- in_rev, <- list_elem_of_In in Hx.
    rewrite Forall_forall in Hr. now apply Hr.
  - rewrite list_elem_of_In, <- in_rev, <- list_elem_of_In. exact Hrest.
Qed.

(** What is joined from clean components is empty or begins with a
    character other than [/]. *)
Lemma join_clean_head (l : list (list N)) :
  Forall clean l ->
  match join_str sep l with
  | [] => l = []
  | x :: _ => x <> 47%N
  end.
Proof.
  destruct l as [|p l]; [reflexivity|].
  intros H. apply Forall_cons in H as [(Hne & _ & Hs) _].
  destruct p as [|x p]; [congruence|].
  apply not_elem_of_cons in Hs as [Hx _].
  destruct l; simpl; congruence.
Qed.

Lemma split_slash (s : list N) : split sep (47%N :: s) = [] :: split sep s.
Proof.
  unfold split. change sep with [47%N].
  now rewrite split_go_char, N.eqb_refl.
Qed.

Lemma normpath_fold_empties (k n : nat) (comps stack : list (list N)) :
  fold_left (normpath_step k) (replicate n [] ++ comps) stack
  = fold_left (normpath_step k) comps stack.
Proof. induction n as [|n IH]; [reflexivity|exact IH]. Qed.

Lemma split_slashes (k : nat) (j : list N) :
  split sep (concat (replicate k sep) ++ j) = replicate k [] ++ split sep j.
Proof.
  induction k as [|k IH]; [reflexivity|].
  change (concat (replicate (S k) sep) ++ j)
    with (47%N :: (concat (replicate k sep) ++ j)).
  rewrite split_slash, IH. reflexivity.
Qed.

(** The slashes put in front are the ones counted. *)
Lemma initial_slashes_of (k : nat) (j : list N) :
  k <= 2 ->
  match j with [] => True | x :: _ => x <> 47%N end ->
  (k = 0 -> j <> []) ->
  initial_slashes (concat (replicate k sep) ++ j) = k.
Proof.
  intros Hk Hj H0.
  unfold initial_slashes. change sep with [47%N].
  change (pystr "//") with [47%N; 47%N].
  change (pystr "///") with [47%N; 47%N; 47%N].
  destruct k as [|[|[|k]]]; [| | |lia];
    cbn [replicate concat app];
    (destruct j as [|x j];
     [try reflexivity; now specialize (H0 eq_refl)|]);
    apply N.eqb_neq in Hj; rewrite N.eqb_sym in Hj;
    cbn [startswith]; rewrite ?N.eqb_refl, ?Hj; reflexivity.
Qed.

(** Normalising the path made from a stack in shape gives it back. *)
Lemma normpath_of_stack (k : nat) (stack : list (list N)) :
  k <= 2 -> stack_ok k stack ->
  concat (replicate k sep) ++ join_str sep (rev stack) <> [] ->
  normpath (concat (replicate k sep) ++ join_str sep (rev stack))
  = concat (replicate k sep) ++ join_str sep (rev stack).
Proof.
  intros Hk Hok Hne.
  pose proof (normpath_refold k stack Hok) as Hre.
  assert (Hcl : Forall clean (rev stack)).
  { destruct Hok as [Hc _]. apply Forall_forall. intros x Hx.
    rewrite list_elem_of_In, <- in_rev, <- list_elem_of_In in Hx.
    rewrite Forall_forall in Hc. now apply Hc. }
  pose proof (join_clean_head (rev stack) Hcl) as Hj.
  assert (Hsp : fold_left (normpath_step k)
                  (split sep (join_str sep (rev stack))) [] = stack).
  { destruct (rev stack) as [|p l] eqn:Er.
    - apply (f_equal (@rev _)) in Er. rewrite rev_involutive in Er.
      now subst stack.
    - unfold sep at 1 2. change (pystr "/") with [47%N].
      rewrite split_join; [exact Hre|discriminate|].
      eapply Forall_impl; [exact Hcl|]. now intros x (_ & _ & H). }
  unfold normpath.
  destruct (str_eqb _ []) eqn:E0; [apply str_eqb_eq in E0; congruence|].
  clear E0. cbv zeta.
  rewrite initial_slashes_of; [|assumption| |].
  - rewrite split_slashes, normpath_fold_empties, Hsp.
    destruct (str_eqb _ []) eqn:E0; [|reflexivity].
    apply str_eqb_eq in E0. congruence.
  - destruct (join_str sep (rev stack)); [exact I|assumption].
  - intros ->. exact Hne.
Qed.

Lemma normpath_idempotent (path : list N) :
  normpath (normpath path) = normpath path.
Proof.
  unfold normpath at 2 3.
  destruct (str_eqb path []); [reflexivity|].
  cbv zeta.
  set (k := initial_slashes path).
  set (stack := fold_left (normpath_step k) (split sep path) []).
  assert (Hk : k <= 2).
  { unfold k, initial_slashes. repeat match goal with |- context [if ?b then _ else _] =>
      destruct b end; lia. }
  assert (Hok : stack_ok k stack).
  { apply normpath_fold_ok; [apply split_no_sep|apply stack_ok_nil]. }
  destruct (str_eqb _ []) eqn:E; [reflexivity|].
  apply str_eqb_neq in E. now apply normpath_of_stack.
Qed.

(** ** Paths *)

Lemma normpath_nonempty (path : list N) : normpath path <> [].
Proof.
  unfold normpath. destruct (str_eqb path []); [discriminate|].
  match goal with |- context [str_eqb ?p []] =>
    destruct (str_eqb p []) eqn:E end.
  - discriminate.
  - now apply str_eqb_neq in E.
Qed.




(** *** What [_final_path] does *)

(** The walk raises nothing but its two exceptions. *)
Lemma joinrealpath_loop_exn (w : World)
  (resolve : list N -> list N -> seen_map -> walk)
  (comps : list (list N)) :
  (forall path target seen e,
     resolve path target seen = inl e -> walk_exn e = true) ->
  forall path seen e,
    joinrealpath_loop w resolve path comps seen = inl e -> walk_exn e = true.
Proof.
  intros Hres. induction comps as [|name comps IH]; intros path seen e.
  - discriminate.
  - cbn [joinrealpath_loop].
    destruct (str_eqb name [] || str_eqb name (pystr ".")); [apply IH|].
    destruct (str_eqb name (pystr "..")); [apply IH|].
    cbv zeta. destruct (has_nul (join path name)); [now intros [= <-]|].
    destruct (readlink w (join path name)) as [target|]; [|apply IH].
    destruct (seen !! join path name) as [[cached|]|];
      [apply IH|discriminate|].
    destruct (resolve path target _) as [e'|[[p [|]] seen']] eqn:Er.
    + intros [= <-]. exact (Hres _ _ _ _ Er).
    + apply IH.
    + discriminate.
Qed.

Lemma joinrealpath_exn (w : World) (depth : nat) (path rest : list N)
  (seen : seen_map) (e : exn) :
  joinrealpath w depth path rest seen = inl e -> walk_exn e = true.
Proof.
  revert path rest seen e.
  induction depth as [|depth IH]; intros path rest seen e.
  - now intros [= <-].
  - cbn [joinrealpath]. apply joinrealpath_loop_exn. exact IH.
Qed.

Lemma final_path_cases (w : World) (path : list N) (st : list event) :
  (exists e,
     walk_exn e = true
     /\ realpath_walk w (normpath path) = inl e
     /\ _final_path w path st = (Raise e, EvRealpath (normpath path) :: st))
  \/ (exists reached ok seen,
        realpath_walk w (normpath path) = inr (reached, ok, seen)
        /\ isabs reached = true
        /\ _final_path w path st
           = (Return (normpath reached), EvRealpath (normpath path) :: st))
  \/ (exists reached ok seen cwd,
        realpath_walk w (normpath path) = inr (reached, ok, seen)
        /\ isabs reached = false
        /\ getcwd w = inr cwd
        /\ _final_path w path st
           = (Return (normpath (join cwd reached)),
              EvGetcwd :: EvRealpath (normpath path) :: st))
  \/ (exists reached ok seen errno,
        realpath_walk w (normpath path) = inr (reached, ok, seen)
        /\ isabs reached = false
        /\ getcwd w = inl errno
        /\ _final_path w path st
           = (Raise (OSError errno),
              EvGetcwd :: EvRealpath (normpath path) :: st)).
Proof.
  unfold _final_path, call_realpath, call_getcwd.
  unfold bind at 1, emit at 1. cbv zeta.
  destruct (realpath_walk w (normpath path)) as [e|[[reached ok] seen]] eqn:Ew.
  - left. exists e. repeat split. exact (joinrealpath_exn _ _ _ _ _ _ Ew).
  - right. destruct (isabs reached) eqn:Ea; [left; eauto 6|right].
    unfold bind, emit, ret, raise.
    destruct (getcwd w) as [errno|cwd]; [right|left]; eauto 8.
Qed.

(** Whatever [_final_path] returns is normalised, so not empty. *)
Lemma final_path_normal (w : World) (path p : list N) (st st1 : list event) :
  _final_path w path st = (Return p, st1) -> normpath p = p.
Proof.
  destruct (final_path_cases w path st)
    as [(e & _ & _ & ->)
       | [(r & ok & seen & _ & _ & ->)
         | [(r & ok & seen & cwd & _ & _ & _ & ->)
           | (r & ok & seen & errno & _ & _ & _ & ->)]]];
    intros [= <- _]; apply normpath_idempotent.
Qed.

Lemma final_path_nonempty (w : World) (path p : list N)
  (st st1 : list event) :
  _final_path w path st = (Return p, st1) -> p <> [].
Proof.
  intros <-%final_path_normal. apply normpath_nonempty.
Qed.
(** ** What the log records *)

Lemma open_files_quiet (evs st : list event) :
  forallb quiet_event evs = true -> open_files (evs ++ st) = open_files st.
Proof.
  induction evs as [|ev evs IH]; [reflexivity|].
  simpl. intros [H1 H2]%andb_true_iff. destruct ev; try discriminate; auto.
Qed.

Lemma quiet_ret {A} (a : A) : quiet (ret a).
Proof. intros st. now exists []. Qed.

Lemma quiet_raise {A} (e : exn) : quiet (@raise A e).
Proof. intros st. now exists []. Qed.

Lemma quiet_emit (ev : event) : quiet_event ev = true -> quiet (emit ev).
Proof. intros H st. exists [ev]. simpl. now rewrite H. Qed.

Lemma quiet_bind {A B} (c : M A) (k : A -> M B) :
  quiet c -> (forall a, quiet (k a)) -> quiet (bind c k).
Proof.
  intros Hc Hk st. unfold bind.
  destruct (Hc st) as (evs & H1 & H2).
  destruct (c st) as [[a|e] st1]; simpl in H1; subst st1.
  - destruct (Hk a (evs ++ st)) as (evs' & H3 & H4).
    exists (evs' ++ evs). rewrite H3. split.
    + now rewrite app_assoc.
    + rewrite forallb_app. now rewrite H2, H4.
  - now exists evs.
Qed.

Lemma quiet_execute (w : World) (command : list N) :
  quiet (_execute w command).
Proof.
  intros st.
  destruct (execute_cases w command st)
    as [[m ->] | [[args ->] | (args & r & -> & _)]]; simpl.
  - now exists [].
  - now exists [EvLogDebug; EvPopen args].
  - now exists [EvPopen args].
Qed.

Lemma quiet_final_path (w : World) (path : list N) :
  quiet (_final_path w path).
Proof.
  intros st.
  destruct (final_path_cases w path st)
    as [(e & _ & _ & ->)
       | [(r & ok & seen & _ & _ & ->)
         | [(r & ok & seen & cwd & _ & _ & _ & ->)
           | (r & ok & seen & errno & _ & _ & _ & ->)]]]; cbn [snd].
  - now exists [EvRealpath (normpath path)].
  - now exists [EvRealpath (normpath path)].
  - now exists [EvGetcwd; EvRealpath (normpath path)].
  - now exists [EvGetcwd; EvRealpath (normpath path)].
Qed.

Lemma quiet_call_find_executable (w : World) (name : list N) :
  quiet (call_find_executable w name).
Proof. intros st. now exists [EvFindExecutable name]. Qed.

Lemma quiet_py_or (a b : M (option (list N))) :
  quiet a -> quiet b -> quiet (py_or a b).
Proof.
  intros Ha Hb. apply quiet_bind; [exact Ha|].
  intros x. destruct (truthy x); [apply quiet_ret | exact Hb].
Qed.

Create HintDb quiet.
#[local] Hint Resolve quiet_ret quiet_raise quiet_bind quiet_py_or
  quiet_execute quiet_final_path quiet_call_find_executable : quiet.

Lemma quiet_find_linker (w : World) : quiet (find_linker w).
Proof. unfold find_linker. auto with quiet. Qed.

Lemma quiet_gcc_parse_trace (w : World) (library : list N)
  (trace : option (option (list N))) :
  quiet (gcc_parse_trace w library trace).
Proof.
  destruct trace as [[trace|]|]; simpl; auto with quiet.
  destruct (search (gcc_expr library) trace); auto with quiet.
Qed.

Lemma quiet_open_files {A} (c : M A) (st : list event) :
  quiet c -> open_files (snd (c st)) = open_files st.
Proof.
  intros H. destruct (H st) as (evs & -> & Hq). now apply open_files_quiet.
Qed.

(** ** C9: the temporary file of [_gcc_search] *)

(** The [with] statement leaves no temporary file open, however it ends. *)
Lemma gcc_with_block_releases (w : World) (linker library : list N)
  (st : list event) :
  open_files (snd (gcc_with_block w linker library st)) = open_files st.
Proof.
  unfold gcc_with_block, call_mktemp.
  destruct (mktemp w) as [errno|tmp]; [reflexivity|].
  unfold bind at 1, emit at 1, ret at 1.
  pose proof (quiet_open_files (_execute w (gcc_command linker tmp library))
                (EvTmpOpen tmp :: st) (quiet_execute _ _)) as Hx.
  cbn [open_files] in Hx.
  assert (Hclose : forall st2,
             open_files st2 = tmp :: open_files st ->
             open_files (snd (call_tmp_close w tmp st2)) = open_files st).
  { intros st2 H2. unfold call_tmp_close, bind, emit, ret, raise.
    destruct (tmp_close w tmp); cbn [snd open_files];
      rewrite H2; cbn [remove_first]; now rewrite str_eqb_refl. }
  destruct (_execute w _ _) as [[v|e] st2]; cbn [snd] in Hx;
    specialize (Hclose st2 Hx);
    destruct (call_tmp_close w tmp st2) as [[[]|e'] st3]; exact Hclose.
Qed.

(** C9.  Whatever [_gcc_search] does (it returns a path, returns [None] or
    raises), the temporary files open after it are those open before it:
    the file it created has been released. *)
Theorem gcc_search_releases_tmp (w : World) (library : list N)
  (st : list event) :
  open_files (snd (_gcc_search w library st)) = open_files st.
Proof.
  unfold _gcc_search. unfold bind.
  pose proof (quiet_open_files (find_linker w) st (quiet_find_linker w))
    as H0.
  destruct (find_linker w st) as [[[linker|]|e] st1]; simpl in H0;
    [|exact H0|exact H0].
  pose proof (gcc_with_block_releases w linker library st1) as H1.
  destruct (gcc_with_block w linker library st1) as [[trace ended] st2].
  simpl in H1.
  pose proof (quiet_open_files (gcc_parse_trace w library trace) st2
                (quiet_gcc_parse_trace _ _ _)) as H2.
  destruct ended as [[]|[errno| | | | |]]; simpl; try congruence.
  destruct (errno =? ENOENT)%Z; simpl; congruence.
Qed.

(** ** C10: [trace] may be unbound *)

(** C10.  With a linker found, if the [with] statement ends in an
    [OSError] with [errno] [ENOENT] before [trace] was assigned (as it
    does when creating the temporary file fails with [ENOENT]), the
    exception is swallowed and [_gcc_search] raises [UnboundLocalError]
    (a [NameError]) for [trace] instead of returning [None]. *)
Theorem gcc_search_unbound_trace (w : World) (library linker : list N)
  (st st1 : list event) :
  find_linker w st = (Return (Some linker), st1) ->
  (mktemp w = inl ENOENT ->
   _gcc_search w library st = (Raise (UnboundLocalError "trace"), st1))
  /\ (forall st2,
        gcc_with_block w linker library st1
        = (None, Raise (OSError ENOENT), st2) ->
        _gcc_search w library st = (Raise (UnboundLocalError "trace"), st2))
  /\ is_NameError (UnboundLocalError "trace") = true
  /\ Raise (UnboundLocalError "trace")
     <> (Return None : outcome (option (list N))).
Proof.
  intros Hl.
  assert (Hgen : forall st2,
             gcc_with_block w linker library st1
             = (None, Raise (OSError ENOENT), st2) ->
             _gcc_search w library st
             = (Raise (UnboundLocalError "trace"), st2)).
  { intros st2 H. unfold _gcc_search, bind. rewrite Hl, H. reflexivity. }
  repeat split; try assumption; try discriminate.
  intros Hm. apply Hgen. unfold gcc_with_block, call_mktemp.
  now rewrite Hm.
Qed.

Lemma gcc_search_unbound_trace_witness :
  _gcc_search notmp_world (pystr "m") []
  = (Raise (UnboundLocalError "trace"), [EvFindExecutable (pystr "cc")]).
Proof.
  apply (proj1 (gcc_search_unbound_trace notmp_world (pystr "m")
                  (pystr "/usr/bin/cc") [] [EvFindExecutable (pystr "cc")]
                  eq_refl)).
  reflexivity.
Defined.

(** ** C2: names with quotes *)

Lemma shlex_plain (rest s : list N) (st : shstate) (quoted : bool)
  (tok : list N) (acc : list (list N)) :
  sh_outside st = true -> sh_plain s = true ->
  exists st' quoted' tok',
    sh_outside st' = true
    /\ shlex_go st quoted tok acc (s ++ rest)
       = shlex_go st' quoted' tok' acc rest.
Proof.
  revert st quoted tok. induction s as [|c s IH]; intros st quoted tok Hst Hs.
  - now exists st, quoted, tok.
  - cbn [sh_plain forallb] in Hs. apply andb_true_iff in Hs as [Hc Hs].
    apply negb_true_iff in Hc.
    apply orb_false_iff in Hc as [Hc Hc3].
    apply orb_false_iff in Hc as [Hc1 Hc2].
    destruct st; try discriminate; cbn [app shlex_go];
      rewrite Hc1, Hc2, Hc3; now apply IH.
Qed.

Lemma shlex_space (rest : list N) (st : shstate) (quoted : bool)
  (tok : list N) (acc : list (list N)) :
  sh_outside st = true ->
  exists acc',
    shlex_go st quoted tok acc (32%N :: rest)
    = shlex_go ShWhite false [] acc' rest.
Proof.
  intros Hst. destruct st; try discriminate; cbn [shlex_go].
  - now exists acc.
  - change (sh_whitespace 32) with true. cbn iota.
    destruct (quoted || negb (str_eqb tok [])); eauto.
Qed.

Lemma shlex_quoted (rest s : list N) (quoted : bool) (tok : list N)
  (acc : list (list N)) :
  sh_plain s = true ->
  exists quoted' tok',
    shlex_go (ShQuote 34) quoted tok acc (s ++ rest)
    = shlex_go (ShQuote 34) quoted' tok' acc rest.
Proof.
  revert quoted tok. induction s as [|c s IH]; intros quoted tok Hs.
  - now exists quoted, tok.
  - cbn [sh_plain forallb] in Hs. apply andb_true_iff in Hs as [Hc Hs].
    apply negb_true_iff in Hc.
    apply orb_false_iff in Hc as [Hc Hc3].
    apply orb_false_iff in Hc as [_ Hc2].
    unfold sh_quote in Hc2. apply orb_false_iff in Hc2 as [_ Hc2].
    cbn [app shlex_go]. rewrite Hc2, Hc3. cbn [andb]. now apply IH.
Qed.

(** The command line of [_gcc_search] for the name made of one double
    quote does not split: the last quote is never closed. *)
Lemma gcc_command_quote_unbalanced (linker tmp : list N) :
  sh_plain linker = true -> sh_plain tmp = true ->
  shsplit (gcc_command linker tmp [34%N]) = inl "No closing quotation"%string.
Proof.
  intros Hl Ht. unfold shsplit, gcc_command.
  change (pystr " -Wl,-t -o ")
    with (32%N :: (pystr "-Wl,-t" ++ 32%N :: (pystr "-o" ++ [32%N]))).
  destruct (shlex_plain
              ((32%N :: (pystr "-Wl,-t" ++ 32%N :: (pystr "-o" ++ [32%N])))
               ++ [34%N] ++ tmp ++ [34%N] ++ pystr " -l" ++ [34%N]
               ++ [34%N] ++ [34%N])
              linker ShWhite false [] [] eq_refl Hl)
    as (st1 & q1 & t1 & H1 & ->).
  cbn [app].
  destruct (shlex_space
              (pystr "-Wl,-t" ++ 32%N :: pystr "-o" ++ 32%N :: 34%N
               :: tmp ++ 34%N :: pystr " -l" ++ [34%N; 34%N; 34%N])
              st1 q1 t1 [] H1) as (acc1 & E1).
  etransitivity; [exact E1|]. clear E1.
  (* the two options are read as words, then the quote before [tmp] *)
  change (shlex_go ShWhite false [] acc1 _)
    with (shlex_go (ShQuote 34) false []
            (pystr "-o" :: pystr "-Wl,-t" :: acc1)
            (tmp ++ 34%N :: pystr " -l" ++ [34%N; 34%N; 34%N])).
  destruct (shlex_quoted
              (34%N :: pystr " -l" ++ [34%N; 34%N; 34%N]) tmp false []
              (pystr "-o" :: pystr "-Wl,-t" :: acc1) Ht)
    as (q2 & t2 & ->).
  (* [tmp] is closed, [-l] read, and of the three quotes left the third
     opens a string that never ends *)
  reflexivity.
Qed.

(** C2 fails on the code.  When the registry strategy finds nothing, a
    linker is installed and the temporary file is created and closed
    without error (the linker's path and the file's name being plain
    words), [find_library] on the name made of one double-quote
    character (code 34) raises the [ValueError] of [shlex.split]: in the
    command line the name sits between two double quotes after [-l],
    which leaves the last quote without its closing one, and
    [except OSError] does not catch a [ValueError]. *)
Theorem find_library_quote_raises (w : World) (linker tmp : list N)
  (st st1 st2 : list event) :
  _ldconfig_search w [34%N] st = (Return None, st1) ->
  find_linker w st1 = (Return (Some linker), st2) ->
  mktemp w = inr tmp ->
  tmp_close w tmp = None ->
  sh_plain linker = true ->
  sh_plain tmp = true ->
  find_library w [34%N] st
  = (Raise (ValueError "No closing quotation"),
     EvTmpClose tmp :: EvTmpOpen tmp :: st2).
Proof.
  intros Hld Hlink Hm Hc Hl Ht.
  unfold find_library, py_or. unfold bind at 1. rewrite Hld.
  cbn [truthy]. unfold bind at 1.
  unfold _gcc_search. unfold bind at 1. rewrite Hlink.
  unfold gcc_with_block, call_mktemp. rewrite Hm.
  unfold bind at 1, emit at 1, ret at 1.
  rewrite (execute_split_error _ _ _ _
             (gcc_command_quote_unbalanced linker tmp Hl Ht)).
  unfold call_tmp_close, bind, emit, ret. rewrite Hc. reflexivity.
Qed.

Lemma find_library_quote_raises_witness :
  find_library (cc_world []) [34%N] []
  = (Raise (ValueError "No closing quotation"),
     [EvTmpClose tmp_name; EvTmpOpen tmp_name;
      EvFindExecutable (pystr "cc");
      EvFindExecutable (pystr "ldconfig")]).
Proof.
  apply (find_library_quote_raises (cc_world []) (pystr "/usr/bin/cc")
           tmp_name [] [EvFindExecutable (pystr "ldconfig")]);
    reflexivity.
Defined.
(** ** The three resolvers *)

(** A resolver that finds something hands back what [_final_path] made
    of some candidate path. *)
Lemma final_path_then_some (w : World) (q p : list N)
  (st st1 : list event) :
  (x <- _final_path w q ;; ret (Some x)) st = (Return (Some p), st1) ->
  _final_path w q st = (Return p, st1).
Proof.
  unfold bind, ret. destruct (_final_path w q st) as [[x|e] st2];
    [|discriminate].
  now intros [= -> ->].
Qed.

Lemma ldconfig_search_result (w : World) (library p : list N)
  (st st1 : list event) :
  _ldconfig_search w library st = (Return (Some p), st1) ->
  exists q st0, _final_path w q st0 = (Return p, st1).
Proof.
  unfold _ldconfig_search, call_find_executable.
  unfold bind at 1 2, emit at 1, ret at 1.
  destruct (find_executable w _) as [executable|]; [|discriminate].
  unfold bind at 1.
  destruct (_execute w _ _) as [[[ldconfig|]|e] st2]; try discriminate.
  cbv zeta.
  destruct (search _ ldconfig) as [m|]; [|discriminate].
  intros H%final_path_then_some. eauto.
Qed.

Lemma gcc_parse_trace_result (w : World) (library p : list N)
  (trace : option (option (list N))) (st st1 : list event) :
  gcc_parse_trace w library trace st = (Return (Some p), st1) ->
  exists q st0, _final_path w q st0 = (Return p, st1).
Proof.
  unfold gcc_parse_trace.
  destruct trace as [[trace|]|]; try discriminate.
  cbv zeta.
  destruct (search _ trace) as [m|]; [|discriminate].
  intros H%final_path_then_some. eauto.
Qed.

Lemma gcc_search_result (w : World) (library p : list N)
  (st st1 : list event) :
  _gcc_search w library st = (Return (Some p), st1) ->
  exists q st0, _final_path w q st0 = (Return p, st1).
Proof.
  unfold _gcc_search, bind.
  destruct (find_linker w st) as [[[linker|]|e] st2]; try discriminate.
  destruct (gcc_with_block w linker library st2) as [[trace ended] st3].
  destruct ended as [[]|[errno| | | | |]]; try discriminate;
    [|destruct (negb (errno =? ENOENT)%Z); [discriminate|]];
    apply gcc_parse_trace_result.
Qed.



(** Whatever a resolver finds is a non-empty string. *)
Lemma final_path_truthy (w : World) (q p : list N) (st st1 : list event) :
  _final_path w q st = (Return p, st1) -> truthy (Some p) = true.
Proof.
  intros H%final_path_nonempty. simpl. now destruct p.
Qed.

(** ** Every resolver leaves its mark in the log *)

Lemma quiet_length {A} (c : M A) (st : list event) :
  quiet c -> length st <= length (snd (c st)).
Proof.
  intros H. destruct (H st) as (evs & -> & _). rewrite length_app. lia.
Qed.

Lemma find_linker_length (w : World) (st : list event) :
  length st < length (snd (find_linker w st)).
Proof.
  unfold find_linker, py_or, call_find_executable, bind, emit, ret.
  destruct (truthy (find_executable w (pystr "cc"))); simpl; lia.
Qed.

Lemma gcc_with_block_length (w : World) (linker library : list N)
  (st : list event) :
  length st <= length (snd (gcc_with_block w linker library st)).
Proof.
  unfold gcc_with_block, call_mktemp.
  destruct (mktemp w) as [errno|tmp]; [simpl; lia|].
  unfold bind at 1, emit at 1, ret at 1.
  pose proof (quiet_length (_execute w (gcc_command linker tmp library))
                (EvTmpOpen tmp :: st) (quiet_execute _ _)) as Hx.
  destruct (_execute w _ _) as [[v|e] st2]; cbn [snd] in Hx;
    unfold call_tmp_close, bind, emit, ret, raise;
    destruct (tmp_close w tmp); simpl in *; lia.
Qed.

Lemma gcc_search_leaves_trace (w : World) (library : list N)
  (st : list event) :
  length st < length (snd (_gcc_search w library st)).
Proof.
  unfold _gcc_search, bind.
  pose proof (find_linker_length w st) as H0.
  destruct (find_linker w st) as [[[linker|]|e] st1]; simpl in H0;
    [|exact H0|exact H0].
  pose proof (gcc_with_block_length w linker library st1) as H1.
  destruct (gcc_with_block w linker library st1) as [[trace ended] st2].
  simpl in H1.
  pose proof (quiet_length (gcc_parse_trace w library trace) st2
                (quiet_gcc_parse_trace _ _ _)) as H2.
  destruct ended as [[]|[errno| | | | |]]; simpl; try lia.
  destruct (errno =? ENOENT)%Z; simpl; lia.
Qed.

Lemma quiet_local_first_file (w : World) (filenames : list (list N)) :
  quiet (local_first_file w filenames).
Proof.
  induction filenames as [|filename rest IH]; [apply quiet_ret|].
  cbn [local_first_file]. apply quiet_bind; [now apply quiet_emit|].
  intros _. destruct (isfile w filename); auto with quiet.
Qed.

Lemma local_search_leaves_trace (w : World) (library : list N)
  (st : list event) :
  length st < length (snd (_local_search w library st)).
Proof.
  unfold _local_search, call_getcwd, call_glob.
  unfold bind at 1 2, emit at 1.
  destruct (getcwd w) as [errno|cwd]; [simpl; lia|].
  unfold ret at 1. unfold bind at 1 2, emit at 1.
  destruct (glob w _) as [msg|filenames]; [simpl; lia|].
  unfold ret at 1.
  match goal with |- context [local_first_file w ?l ?s] =>
    pose proof (quiet_length (local_first_file w l) s
                  (quiet_local_first_file w l)) as H end.
  simpl in *. lia.
Qed.

(** ** C1: the cascade *)

(** C1.  [find_library] asks [_ldconfig_search], then [_gcc_search], then
    [_local_search], and returns the first result that is not [None]:
    - a path from [_ldconfig_search] is returned as it is, and the log is
      the one [_ldconfig_search] left: neither of the other two resolvers
      ran (each of them always adds to the log);
    - otherwise a path from [_gcc_search] is returned, [_local_search]
      not having run;
    - otherwise the result is that of [_local_search];
    - and when all three return [None], so does [find_library]. *)
Theorem find_library_cascade (w : World) (library : list N)
  (st : list event) :
  (forall p st1,
     _ldconfig_search w library st = (Return (Some p), st1) ->
     find_library w library st = (Return (Some p), st1))
  /\ (forall st1 p st2,
        _ldconfig_search w library st = (Return None, st1) ->
        _gcc_search w library st1 = (Return (Some p), st2) ->
        find_library w library st = (Return (Some p), st2))
  /\ (forall st1 st2,
        _ldconfig_search w library st = (Return None, st1) ->
        _gcc_search w library st1 = (Return None, st2) ->
        find_library w library st = _local_search w library st2)
  /\ (forall st1 st2 st3,
        _ldconfig_search w library st = (Return None, st1) ->
        _gcc_search w library st1 = (Return None, st2) ->
        _local_search w library st2 = (Return None, st3) ->
        find_library w library st = (Return None, st3))
  /\ (forall st', snd (_gcc_search w library st') <> st'
                  /\ snd (_local_search w library st') <> st').
Proof.
  assert (H1 : forall p st1,
             _ldconfig_search w library st = (Return (Some p), st1) ->
             find_library w library st = (Return (Some p), st1)).
  { intros p st1 H. unfold find_library, py_or at 1, bind. rewrite H.
    destruct (ldconfig_search_result _ _ _ _ _ H) as (q & st0 & Hq).
    now rewrite (final_path_truthy _ _ _ _ _ Hq). }
  assert (H2 : forall st1 p st2,
             _ldconfig_search w library st = (Return None, st1) ->
             _gcc_search w library st1 = (Return (Some p), st2) ->
             find_library w library st = (Return (Some p), st2)).
  { intros st1 p st2 Ha Hb. unfold find_library, py_or, bind.
    rewrite Ha. cbn [truthy]. rewrite Hb.
    destruct (gcc_search_result _ _ _ _ _ Hb) as (q & st0 & Hq).
    now rewrite (final_path_truthy _ _ _ _ _ Hq). }
  assert (H3 : forall st1 st2,
             _ldconfig_search w library st = (Return None, st1) ->
             _gcc_search w library st1 = (Return None, st2) ->
             find_library w library st = _local_search w library st2).
  { intros st1 st2 Ha Hb. unfold find_library, py_or, bind.
    rewrite Ha. cbn [truthy]. rewrite Hb. reflexivity. }
  repeat split; try assumption.
  - intros st1 st2 st3 Ha Hb Hc. rewrite (H3 _ _ Ha Hb). exact Hc.
  - intros E. pose proof (gcc_search_leaves_trace w library st') as H.
    rewrite E in H. lia.
  - intros E. pose proof (local_search_leaves_trace w library st') as H.
    rewrite E in H. lia.
Qed.

Lemma find_library_cascade_witness :
  fst (find_library
         (ldconfig_world ([9%N] ++ libm_line ++ [10%N])) (pystr "m") [])
  = Return (Some libm_path)
  /\ fst (find_library (cc_world libm_trace) (pystr "m") [])
     = Return (Some (pystr "/usr/lib/x86_64-linux-gnu/libm.so"))
  /\ fst (find_library bare_world (pystr "m") []) = Return None.
Proof.
  split; [|split].
  - erewrite (proj1 (find_library_cascade _ _ _)); [reflexivity|].
    vm_compute. reflexivity.
  - erewrite (proj1 (proj2 (find_library_cascade _ _ _)));
      [reflexivity| |]; vm_compute; reflexivity.
  - erewrite (proj1 (proj2 (proj2 (proj2 (find_library_cascade _ _ _)))));
      [reflexivity| | |]; vm_compute; reflexivity.
Defined.

(** ** Regular expressions *)

(** A greedy repetition that can take the whole run [xs] and go on from
    there does so. *)
Lemma star_greedy (p : N -> bool) (k : nat -> list N -> option (nat * caps))
  (xs rest : list N) (i : nat) (r : nat * caps) :
  forallb p xs = true ->
  match rest with [] => True | c :: _ => p c = false end ->
  k (i + length xs) rest = Some r ->
  star p k i (xs ++ rest) = Some r.
Proof.
  revert i. induction xs as [|x xs IH]; intros i Hxs Hrest Hk.
  - simpl in *. rewrite Nat.add_0_r in Hk.
    destruct rest as [|c rest]; simpl; [exact Hk|]. now rewrite Hrest.
  - simpl in Hxs. apply andb_true_iff in Hxs as [Hx Hxs].
    simpl. rewrite Hx. rewrite (IH (S i)); auto.
    simpl in Hk. now rewrite Nat.add_succ_r in Hk.
Qed.

(** [class+] on a non-empty run *)
Lemma plus_greedy (p : N -> bool) (r' : list atom) (g : caps)
  (xs rest : list N) (i : nat) (r : nat * caps) :
  xs <> [] ->
  forallb p xs = true ->
  match rest with [] => True | c :: _ => p c = false end ->
  match_here r' g (i + length xs) rest = Some r ->
  match_here (Plus p :: r') g i (xs ++ rest) = Some r.
Proof.
  intros Hne Hxs Hrest Hk. destruct xs as [|x xs]; [congruence|].
  simpl in Hxs. apply andb_true_iff in Hxs as [Hx Hxs].
  simpl. rewrite Hx. apply star_greedy; auto.
  simpl in Hk. now rewrite Nat.add_succ_r in Hk.
Qed.

(** Literal text matches itself. *)
Lemma match_here_verbatim (lit : list N) (r' : list atom) (g : caps)
  (i : nat) (s : list N) :
  match_here (verbatim lit ++ r') g i (lit ++ s)
  = match_here r' g (i + length lit) s.
Proof.
  revert i. induction lit as [|c lit IH]; intros i; simpl.
  - now rewrite Nat.add_0_r.
  - rewrite N.eqb_refl. unfold verbatim in IH. rewrite IH.
    now rewrite Nat.add_succ_r.
Qed.

(** A pattern that begins with literal text matches only where the text
    is. *)
Lemma match_here_verbatim_inv (lit : list N) (r' : list atom) (g : caps)
  (i : nat) (s : list N) (r : nat * caps) :
  match_here (verbatim lit ++ r') g i s = Some r ->
  exists s', s = lit ++ s'.
Proof.
  revert i s. induction lit as [|c lit IH]; intros i s; simpl.
  - intros _. now exists s.
  - destruct s as [|x s]; [discriminate|].
    destruct (x =? c)%N eqn:E; [|discriminate].
    apply N.eqb_eq in E as ->. intros H.
    destruct (IH _ _ H) as [s' ->]. now exists s'.
Qed.

Lemma match_here_GroupOpen (r' : list atom) (g : caps) (i : nat)
  (s : list N) :
  match_here (GroupOpen :: r') g i s = match_here r' (Some i, None) i s.
Proof. reflexivity. Qed.

Lemma match_here_GroupClose (r' : list atom) (g : caps) (i : nat)
  (s : list N) :
  match_here (GroupClose :: r') g i s = match_here r' (g.1, Some i) i s.
Proof. reflexivity. Qed.

(** Positions where the pattern does not match are passed over. *)
Lemma search_from_skip (r : list atom) (text pre rest : list N) (i : nat) :
  (forall j, j < length pre ->
             match_here r (None, None) (i + j) (drop j (pre ++ rest))
             = None) ->
  search_from r text i (pre ++ rest)
  = search_from r text (i + length pre) rest.
Proof.
  revert i. induction pre as [|c pre IH]; intros i H.
  - simpl. now rewrite Nat.add_0_r.
  - pose proof (H 0 ltac:(simpl; lia)) as H0.
    rewrite Nat.add_0_r in H0. simpl in H0.
    change ((c :: pre) ++ rest) with (c :: (pre ++ rest)).
    cbn [search_from]. rewrite H0. rewrite IH.
    + simpl. now rewrite Nat.add_succ_r.
    + intros j Hj. specialize (H (S j) ltac:(simpl; lia)).
      rewrite Nat.add_succ_r in H. exact H.
Qed.

Lemma search_from_none (r : list atom) (text s : list N) (i : nat) :
  (forall j, j <= length s ->
             match_here r (None, None) (i + j) (drop j s) = None) ->
  search_from r text i s = None.
Proof.
  revert i. induction s as [|c s IH]; intros i H.
  - pose proof (H 0 ltac:(simpl; lia)) as H0.
    rewrite Nat.add_0_r in H0. simpl in H0. simpl. now rewrite H0.
  - pose proof (H 0 ltac:(simpl; lia)) as H0.
    rewrite Nat.add_0_r in H0. simpl in H0.
    cbn [search_from]. rewrite H0. apply IH.
    intros j Hj. specialize (H (S j) ltac:(simpl; lia)).
    rewrite Nat.add_succ_r in H. exact H.
Qed.

(** ** Slices *)

Lemma slice_middle (x y z : list N) :
  slice (x ++ y ++ z) (Z.of_nat (length x))
    (Z.of_nat (length x + length y)) = y.
Proof.
  unfold slice. rewrite !length_app.
  assert (E1 : (Z.of_nat (length x) <? 0)%Z = false)
    by (apply Z.ltb_ge; lia).
  assert (E2 : (Z.of_nat (length x + length y) <? 0)%Z = false)
    by (apply Z.ltb_ge; lia).
  rewrite E1, E2.
  rewrite !Z.min_l by lia.
  replace (Z.to_nat (Z.of_nat (length x + length y) - Z.of_nat (length x)))
    with (length y) by lia.
  rewrite Nat2Z.id.
  change (skipn (length x) (x ++ y ++ z)) with (drop (length x) (x ++ y ++ z)).
  rewrite drop_app_length.
  change (firstn (length y) (y ++ z)) with (take (length y) (y ++ z)).
  now rewrite take_app_length.
Qed.

(** ** C7: what [soname] returns *)

Lemma soname_expr_match_inv (g : caps) (i : nat) (s : list N)
  (r : nat * caps) :
  match_here soname_expr g i s = Some r ->
  exists c s', s = c :: pystr "SONAME" ++ s'.
Proof.
  change soname_expr with
    (Cls isspace :: verbatim (pystr "SONAME")
       ++ [Plus isspace; GroupOpen; Plus notspace; GroupClose]).
  cbn [match_here]. destruct s as [|c s]; [discriminate|].
  destruct (isspace c); [|discriminate].
  intros H. apply match_here_verbatim_inv in H as [s' ->]. eauto.
Qed.

Lemma search_soname_none (dump : list N) :
  ~ contains (pystr "SONAME") dump -> search soname_expr dump = None.
Proof.
  intros Hno. apply search_from_none. intros j _.
  destruct (match_here soname_expr (None, None) (0 + j) (drop j dump))
    as [r|] eqn:E; [|reflexivity].
  exfalso. apply Hno.
  apply soname_expr_match_inv in E as (c & s' & E).
  exists (take j dump ++ [c]), s'.
  rewrite <- (take_drop j dump) at 1. rewrite E.
  now rewrite <- app_assoc.
Qed.

Lemma notspace_head (tok rest : list N) :
  tok <> [] -> forallb notspace tok = true ->
  match tok ++ rest with [] => True | c :: _ => isspace c = false end.
Proof.
  destruct tok as [|c tok]; [congruence|]. simpl.
  intros _ [H _]%andb_true_iff. unfold notspace in H.
  now destruct (isspace c).
Qed.

Lemma search_soname_found (pre ws tok post : list N) (c : N) :
  isspace c = true ->
  ws <> [] -> forallb isspace ws = true ->
  tok <> [] -> forallb notspace tok = true ->
  ends_or_next isspace post ->
  no_match_before soname_expr
    (pre ++ [c] ++ pystr "SONAME" ++ ws ++ tok ++ post) (length pre) ->
  exists m,
    search soname_expr (pre ++ [c] ++ pystr "SONAME" ++ ws ++ tok ++ post)
    = Some m
    /\ group1 m = Some tok.
Proof.
  intros Hc Hws1 Hws2 Htok1 Htok2 Hpost Hpre.
  set (text := pre ++ [c] ++ pystr "SONAME" ++ ws ++ tok ++ post).
  unfold search. fold text.
  assert (Hm : match_here soname_expr (None, None) (length pre)
                 ([c] ++ pystr "SONAME" ++ ws ++ tok ++ post)
               = Some (S (length pre) + 6 + length ws + length tok,
                       (Some (S (length pre) + 6 + length ws),
                        Some (S (length pre) + 6 + length ws + length tok)))).
  { change soname_expr with
      (Cls isspace :: verbatim (pystr "SONAME")
         ++ [Plus isspace; GroupOpen; Plus notspace; GroupClose]).
    change ([c] ++ pystr "SONAME" ++ ws ++ tok ++ post)
      with (c :: (pystr "SONAME" ++ ws ++ tok ++ post)).
    cbn [match_here]. rewrite Hc. rewrite match_here_verbatim.
    change (length (pystr "SONAME")) with 6.
    apply plus_greedy;
      [assumption|assumption|now apply notspace_head|].
    rewrite match_here_GroupOpen.
    apply plus_greedy; [assumption|assumption| |reflexivity].
    destruct post as [|c' post]; [exact I|]. simpl in Hpost.
    unfold notspace. now rewrite Hpost. }
  unfold text at 2. rewrite search_from_skip.
  2:{ intros j Hj. apply Hpre. exact Hj. }
  simpl Nat.add.
  change ([c] ++ pystr "SONAME" ++ ws ++ tok ++ post)
    with (c :: (pystr "SONAME" ++ ws ++ tok ++ post)) in Hm |- *.
  cbn [search_from]. rewrite Hm. eexists. split; [reflexivity|].
  unfold group1. cbn [m_group1 m_string].
  unfold text.
  replace (pre ++ [c] ++ pystr "SONAME" ++ ws ++ tok ++ post)
    with ((pre ++ [c] ++ pystr "SONAME" ++ ws) ++ tok ++ post)
    by (now rewrite <- !app_assoc).
  replace (S (length pre) + 6 + length ws)
    with (length (pre ++ [c] ++ pystr "SONAME" ++ ws))
    by (rewrite !length_app; simpl; lia).
  now rewrite slice_middle.
Qed.

(** C7, as stated, fails where the code follows its pattern
    [\sSONAME\s+([^\s]+)], which wants a whitespace character before the
    keyword: on a dump that is the line [SONAME      libm.so.6] and nothing
    before it, [soname] returns [None], not [libm.so.6]. *)
Lemma soname_needs_leading_space :
  isfile (objdump_world (pystr "SONAME      libm.so.6" ++ [10%N])) libm_path
  = true
  /\ contains (pystr "SONAME      libm.so.6")
       (pystr "SONAME      libm.so.6" ++ [10%N])
  /\ fst (soname (objdump_world (pystr "SONAME      libm.so.6" ++ [10%N]))
            libm_path [])
     = Return None
  /\ fst (soname (objdump_world (pystr "SONAME      libm.so.6" ++ [10%N]))
            libm_path [])
     <> Return (Some (pystr "libm.so.6")).
Proof.
  split; [reflexivity|]. split; [now exists [], [10%N]|].
  split; [vm_compute; reflexivity|]. vm_compute. discriminate.
Qed.

(** C7, amended.  For an existing regular file whose [objdump] command
    line splits into arguments, [soname] returns
    - [None] when starting [objdump] raises an [OSError] (tool absent);
    - [None] when the decoded output does not contain [SONAME] at all;
    - the token, when the output has a whitespace character, [SONAME],
      whitespace and then the token (ended by whitespace or by the end of
      the output), and the pattern matches nowhere before. *)
Theorem soname_result (w : World) (library_path : list N)
  (args : list (list N)) (st : list event) :
  isfile w library_path = true ->
  shsplit (objdump_command library_path) = inr args ->
  (forall errno,
     popen w args = inl (SpawnOSError errno) ->
     fst (soname w library_path st) = Return None)
  /\ (forall pstdout dump,
        popen w args = inr pstdout ->
        decode pstdout = Some dump ->
        ~ contains (pystr "SONAME") dump ->
        fst (soname w library_path st) = Return None)
  /\ (forall pstdout pre c ws tok post,
        popen w args = inr pstdout ->
        decode pstdout
        = Some (pre ++ [c] ++ pystr "SONAME" ++ ws ++ tok ++ post) ->
        isspace c = true ->
        ws <> [] -> forallb isspace ws = true ->
        tok <> [] -> forallb notspace tok = true ->
        ends_or_next isspace post ->
        no_match_before soname_expr
          (pre ++ [c] ++ pystr "SONAME" ++ ws ++ tok ++ post) (length pre) ->
        fst (soname w library_path st) = Return (Some tok)).
Proof.
  intros Hfile Hsplit.
  assert (Hs : forall r st1,
             _execute w (objdump_command library_path)
               (EvIsfile library_path :: st) = (Return r, st1) ->
             fst (soname w library_path st)
             = Return (match r with
                       | None => None
                       | Some dump =>
                           match search soname_expr dump with
                           | None => None
                           | Some m => group1 m
                           end
                       end)).
  { intros r st1 H. unfold soname.
    unfold bind at 1, emit at 1. rewrite Hfile. cbn [negb].
    unfold bind. rewrite H.
    destruct r as [dump|]; [|reflexivity].
    now destruct (search soname_expr dump). }
  split; [|split].
  - intros errno Hp.
    now rewrite (Hs None _ (execute_spawn_OSError _ _ _ errno _ Hsplit Hp)).
  - intros pstdout dump Hp Hd Hno.
    pose proof (execute_output w _ _ _ (EvIsfile library_path :: st)
                  Hsplit Hp) as He.
    rewrite Hd in He. rewrite (Hs _ _ He).
    now rewrite search_soname_none.
  - intros pstdout pre c ws tok post Hp Hd Hc Hws1 Hws2 Htok1 Htok2 Hpost
      Hpre.
    pose proof (execute_output w _ _ _ (EvIsfile library_path :: st)
                  Hsplit Hp) as He.
    rewrite Hd in He. rewrite (Hs _ _ He).
    destruct (search_soname_found pre ws tok post c) as (m & -> & ->); auto.
Qed.

Lemma soname_result_witness :
  fst (soname nofork_world libm_path []) = Return None
  /\ fst (soname (objdump_world (pystr "no dynamic section")) libm_path [])
     = Return None
  /\ fst (soname (objdump_world libm_dump) libm_path [])
     = Return (Some (pystr "libm.so.6")).
Proof.
  split; [|split].
  - eapply (proj1 (soname_result nofork_world libm_path _ []
                     eq_refl eq_refl)).
    reflexivity.
  - eapply (proj1 (proj2 (soname_result
                            (objdump_world (pystr "no dynamic section"))
                            libm_path _ [] eq_refl eq_refl))
              (ascii_bytes (pystr "no dynamic section"))
              (pystr "no dynamic section"));
      [reflexivity|reflexivity|].
    intros (pre & post & H).
    assert (Hb : existsb (N.eqb 83) (pystr "no dynamic section") = true).
    { apply existsb_exists. exists 83%N. split; [|apply N.eqb_refl].
      rewrite H. apply in_or_app. right. now left. }
    vm_compute in Hb. discriminate.
  - eapply (proj2 (proj2 (soname_result (objdump_world libm_dump)
                            libm_path _ [] eq_refl eq_refl))
              (ascii_bytes libm_dump)
              ([10%N] ++ pystr "Dynamic Section:" ++ [10%N]
               ++ pystr "  NEEDED               libc.so.6" ++ [10%N]
               ++ pystr " ")
              32%N (pystr "               ") (pystr "libm.so.6") [10%N]);
      try reflexivity; try discriminate.
    intros j Hj.
    do 52 (destruct j as [|j]; [vm_compute; reflexivity|]).
    vm_compute in Hj. lia.
Defined.

(** A slip next to C7, the one of C2.  The path goes into the command line
    as it is, so for an existing file whose path holds one apostrophe
    (code 39) [shlex.split] raises and [soname] with it, before [objdump]
    is even started. *)
Example soname_apostrophe_raises :
  let path := pystr "/opt/it" ++ [39%N] ++ pystr "s/libq.so" in
  let w := make_world (pystr "x86_64") 8 [] no_such_command (inr tmp_name)
             [path] in
  isfile w path = true
  /\ soname w path []
     = (Raise (ValueError "No closing quotation"), [EvIsfile path]).
Proof. split; vm_compute; reflexivity. Qed.
(** ** Paths as lists of names *)

Lemma join_str_snoc (l : list (list N)) (c : list N) :
  l <> [] -> join_str sep (l ++ [c]) = join_str sep l ++ sep ++ c.
Proof.
  induction l as [|x l IH]; [congruence|]. intros _.
  destruct l as [|y l]; [reflexivity|].
  change (join_str sep ((x :: y :: l) ++ [c]))
    with (x ++ sep ++ join_str sep ((y :: l) ++ [c])).
  rewrite IH by discriminate.
  change (join_str sep (x :: y :: l))
    with (x ++ sep ++ join_str sep (y :: l)).
  now rewrite <- !app_assoc.
Qed.


Lemma name_ok_clean (c : list N) : name_ok c -> clean c.
Proof. intros (H1 & H2 & _ & H3 & _). now repeat split. Qed.

Lemma clean_dotdot_name : clean (pystr "..").
Proof.
  repeat split; try discriminate.
  intros H. repeat (apply elem_of_cons in H as [H|H]; [discriminate|]).
  now apply not_elem_of_nil in H.
Qed.

(** A path made of clean names does not end with a slash. *)
Lemma join_str_last (l : list (list N)) :
  l <> [] -> Forall clean l ->
  exists x d, join_str sep l = x ++ [d] /\ d <> 47%N.
Proof.
  intros Hne Hl. destruct (exists_last Hne) as (l' & c & ->).
  apply Forall_app in Hl as [_ Hc]. apply Forall_cons in Hc as [Hc _].
  destruct Hc as (Hc1 & _ & Hc3).
  destruct (exists_last Hc1) as (c' & d & ->).
  assert (Hd : d <> 47%N).
  { intros ->. apply Hc3. apply elem_of_app. right. left. }
  destruct l' as [|y l'].
  - exists c', d. now split.
  - rewrite join_str_snoc by discriminate.
    exists (join_str sep (y :: l') ++ sep ++ c'), d.
    split; [now rewrite <- !app_assoc|assumption].
Qed.


(** *** [os.path.join] and [os.path.split] on such paths *)

Lemma startswith_sep_cons (d : N) (x : list N) :
  startswith sep (d :: x) = (47 =? d)%N.
Proof. cbn. apply andb_true_r. Qed.

Lemma endswith_sep_snoc (x : list N) (d : N) :
  endswith sep (x ++ [d]) = (47 =? d)%N.
Proof.
  unfold endswith. rewrite rev_app_distr. cbn. apply andb_true_r.
Qed.

Lemma neq_eqb_47 (d : N) : d <> 47%N -> (47 =? d)%N = false.
Proof. intros H. apply N.eqb_neq. congruence. Qed.

Lemma join_name (x c : list N) (d : N) :
  clean c -> d <> 47%N -> join (x ++ [d]) c = (x ++ [d]) ++ sep ++ c.
Proof.
  intros (Hc1 & _ & Hc3) Hd. unfold join.
  destruct c as [|e c]; [congruence|].
  rewrite startswith_sep_cons.
  rewrite neq_eqb_47
    by (intros ->; apply Hc3; left).
  rewrite endswith_sep_snoc, neq_eqb_47 by assumption.
  destruct (x ++ [d]) eqn:E; [now destruct x|]. reflexivity.
Qed.

Lemma join_root (c : list N) : clean c -> join sep c = sep ++ c.
Proof.
  intros (Hc1 & _ & Hc3). unfold join.
  destruct c as [|e c]; [congruence|].
  rewrite startswith_sep_cons.
  rewrite neq_eqb_47 by (intros ->; apply Hc3; left).
  reflexivity.
Qed.

Lemma join_empty (c : list N) : clean c -> join [] c = c.
Proof.
  intros (Hc1 & _ & Hc3). unfold join.
  destruct c as [|e c]; [congruence|].
  rewrite startswith_sep_cons.
  rewrite neq_eqb_47 by (intros ->; apply Hc3; left).
  reflexivity.
Qed.








(** Appending a name to a path made of names *)
Lemma join_names (l : list (list N)) (c : list N) :
  l <> [] -> Forall clean l -> clean c ->
  join (join_str sep l) c = join_str sep (l ++ [c]).
Proof.
  intros Hne Hl Hc.
  destruct (join_str_last l Hne Hl) as (x & d & E & Hd).
  rewrite E, join_name by assumption.
  now rewrite join_str_snoc, E by assumption.
Qed.

Lemma join_abs_names (l : list (list N)) (c : list N) :
  Forall clean l -> clean c ->
  join (sep ++ join_str sep l) c = sep ++ join_str sep (l ++ [c]).
Proof.
  intros Hl Hc. destruct l as [|y l].
  - cbn [join_str app]. rewrite app_nil_r. now apply join_root.
  - destruct (join_str_last (y :: l) ltac:(discriminate) Hl)
      as (x & d & E & Hd).
    rewrite E, app_assoc, join_name by assumption.
    rewrite join_str_snoc, E by discriminate.
    now rewrite <- !app_assoc.
Qed.



(** *** Positions of the walk *)

Lemma Forall_clean_dotdots (k : nat) :
  Forall clean (replicate k (pystr "..")).
Proof. apply Forall_replicate, clean_dotdot_name. Qed.

Lemma Forall_name_clean (l : list (list N)) :
  Forall name_ok l -> Forall clean l.
Proof.
  intros H. eapply Forall_impl; [exact H|]. apply name_ok_clean.
Qed.

Lemma rel_names_clean (k : nat) (stack : list (list N)) :
  Forall name_ok stack ->
  Forall clean (replicate k (pystr "..") ++ rev stack).
Proof.
  intros H. apply Forall_app. split; [apply Forall_clean_dotdots|].
  apply Forall_name_clean. now apply Forall_rev.
Qed.

Lemma render_push (s : wpath) (name : list N) :
  Forall name_ok (wnames s) -> name_ok name ->
  join (render s) name = render (wpush name s).
Proof.
  intros Hs Hn. pose proof (name_ok_clean _ Hn) as Hc.
  destruct s as [stack|k stack]; cbn [render wpush wnames] in *.
  - unfold abs_render. cbn [rev].
    apply join_abs_names; [|assumption].
    apply Forall_name_clean. now apply Forall_rev.
  - unfold rel_render. cbn [rev]. rewrite app_assoc.
    destruct (replicate k (pystr "..") ++ rev stack) as [|y l] eqn:E.
    + now apply join_empty.
    + rewrite <- E. apply join_names; [|now apply rel_names_clean|assumption].
      rewrite E. discriminate.
Qed.

Lemma str_eqb_false (a b : list N) : a <> b -> str_eqb a b = false.
Proof. apply str_eqb_neq. Qed.

Lemma name_ok_tests (c : list N) :
  name_ok c ->
  str_eqb c [] = false /\ str_eqb c (pystr ".") = false
  /\ str_eqb c (pystr "..") = false.
Proof.
  intros (H1 & H2 & H3 & _). repeat split; now apply str_eqb_false.
Qed.




Lemma isabs_abs_render (stack : list (list N)) :
  isabs (abs_render stack) = true.
Proof. reflexivity. Qed.


(** *** [normpath] on such paths *)

(** Normalising an absolute path given by its components. *)
Lemma normpath_abs_comps (l : list (list N)) :
  Forall (fun c => 47%N ∉ c) l ->
  match l with [] => True | c :: _ => c <> [] end ->
  normpath (sep ++ join_str sep l)
  = sep ++ join_str sep (rev (fold_left (normpath_step 1) l [])).
Proof.
  intros Hl Hhead.
  assert (Hj : match join_str sep l with
               | [] => True
               | x :: _ => x <> 47%N
               end).
  { destruct l as [|c l]; [exact I|].
    apply Forall_cons in Hl as [Hc _].
    destruct c as [|e c]; [congruence|].
    assert (He : e <> 47%N) by (intros ->; apply Hc; left).
    destruct l; exact He. }
  assert (Hsp : fold_left (normpath_step 1) (split sep (join_str sep l)) []
                = fold_left (normpath_step 1) l []).
  { destruct l as [|c l]; [reflexivity|].
    unfold sep at 1 2. change (pystr "/") with [47%N].
    now rewrite split_join. }
  unfold normpath.
  change (str_eqb (sep ++ join_str sep l) []) with false. cbv iota zeta.
  change (sep ++ join_str sep l)
    with (concat (replicate 1 sep) ++ join_str sep l).
  rewrite initial_slashes_of; [|lia|assumption|discriminate].
  rewrite split_slashes, normpath_fold_empties, Hsp.
  reflexivity.
Qed.

Lemma dotdot_not_name (l : list (list N)) :
  Forall name_ok l -> (pystr "..") ∉ l.
Proof.
  intros H Hin. rewrite Forall_forall in H.
  now destruct (H _ Hin) as (_ & _ & H3 & _).
Qed.


Lemma normpath_abs_render (stack : list (list N)) :
  Forall name_ok stack -> normpath (abs_render stack) = abs_render stack.
Proof.
  intros Hs. unfold abs_render.
  rewrite normpath_abs_comps.
  - rewrite normpath_fold_push, app_nil_r, rev_involutive.
    + reflexivity.
    + apply Forall_name_clean. now apply Forall_rev.
    + intros H. apply (dotdot_not_name stack Hs).
      now rewrite list_elem_of_In, in_rev, <- list_elem_of_In.
  - eapply Forall_impl; [apply Forall_rev, Hs|].
    now intros c (_ & _ & _ & H & _).
  - pose proof Hs as H. apply Forall_rev in H.
    destruct (rev stack) as [|c l]; [exact I|].
    apply Forall_cons in H as [(H & _) _]. exact H.
Qed.


(** ** The walk of [realpath] resolves *)

Lemma link_free_nil (w : World) : link_free w [].
Proof.
  intros above below E Hne. symmetry in E.
  apply app_eq_nil in E as [_ ->]. congruence.
Qed.






Section Walk.

Variable w : World.
Variable cstack : list (list N).
Hypothesis cwd_render :
  forall cwd, getcwd w = inr cwd -> cwd = abs_render cstack.
Hypothesis cwd_names : Forall name_ok cstack.
Hypothesis cwd_link_free : link_free w cstack.













Lemma has_nul_false (s : list N) :
  has_nul s = false <-> Forall (fun x => x <> 0%N) s.
Proof.
  unfold has_nul. induction s as [|x s IH]; cbn [existsb].
  - split; [constructor|reflexivity].
  - rewrite orb_false_iff, IH, Forall_cons, N.eqb_neq.
    split; intros [H1 H2]; split; congruence.
Qed.




End Walk.

(** ** Paths made of names *)

Lemma join_str_chars (Q : N -> Prop) (l : list (list N)) :
  Q 47%N -> Forall (Forall Q) l -> Forall Q (join_str sep l).
Proof.
  intros Hq. induction l as [|c l IH]; intros H; [constructor|].
  apply Forall_cons in H as [Hc H]. destruct l as [|d l]; [exact Hc|].
  change (join_str sep (c :: d :: l)) with (c ++ sep ++ join_str sep (d :: l)).
  apply Forall_app. split; [assumption|].
  apply Forall_app. split; [|now apply IH].
  constructor; [assumption|constructor].
Qed.

Lemma has_nul_abs_render (K : list (list N)) :
  Forall name_ok K -> has_nul (abs_render K) = false.
Proof.
  intros H. apply has_nul_false. unfold abs_render.
  apply Forall_app. split; [constructor; [discriminate|constructor]|].
  apply join_str_chars; [discriminate|].
  apply Forall_rev. eapply Forall_impl; [exact H|].
  intros c (_ & _ & _ & _ & H0). apply Forall_forall. intros x Hx ->.
  now apply H0.
Qed.

Lemma drop_abs_render (K : list (list N)) :
  drop 1 (abs_render K) = join_str sep (rev K).
Proof. reflexivity. Qed.

Lemma split_names (l : list (list N)) :
  Forall name_ok l ->
  split sep (join_str sep l) = match l with [] => [[]] | _ => l end.
Proof.
  intros H. destruct l as [|c l]; [reflexivity|].
  change sep with [47%N]. apply split_join; [discriminate|].
  eapply Forall_impl; [exact H|]. now intros x (_ & _ & _ & Hx & _).
Qed.

(** The places on the way to a path made of names. *)
Lemma ancestors_from_names (w : World) (cs st0 : list (list N)) :
  Forall name_ok cs -> Forall name_ok st0 ->
  forallb (fun q => bool_decide (links w !! q = None))
    (ancestors_from (abs_render st0) cs) = true
  <-> (forall pre suf, cs = pre ++ suf -> pre <> [] ->
                       links w !! abs_render (rev pre ++ st0) = None).
Proof.
  revert st0. induction cs as [|c cs IH]; intros st0 Hcs Hst.
  - cbn [ancestors_from forallb]. split; [|reflexivity].
    intros _ pre suf E Hne. symmetry in E.
    apply app_eq_nil in E as [-> _]. congruence.
  - apply Forall_cons in Hcs as [Hc Hcs].
    destruct (name_ok_tests c Hc) as (E1 & _ & _).
    cbn [ancestors_from]. rewrite E1.
    change (join (abs_render st0) c) with (join (render (WAbs st0)) c).
    rewrite render_push by assumption. cbn [wpush render forallb].
    rewrite andb_true_iff, bool_decide_eq_true.
    rewrite (IH (c :: st0)) by (try assumption; now constructor).
    split.
    + intros [H0 H] pre suf E Hne.
      destruct pre as [|a pre]; [congruence|].
      cbn [app] in E. injection E as <- E.
      destruct pre as [|b pre]; [exact H0|].
      cbn [rev]. rewrite <- app_assoc. cbn [app].
      apply (H (b :: pre) suf); [assumption|discriminate].
    + intros H. split.
      * apply (H [c] cs); [reflexivity|discriminate].
      * intros pre suf E Hne.
        specialize (H (c :: pre) suf). cbn [rev] in H.
        rewrite <- app_assoc in H. cbn [app] in H.
        apply H; [now rewrite E|discriminate].
Qed.

Lemma resolved_abs_render (w : World) (K : list (list N)) :
  Forall name_ok K ->
  resolved w (abs_render K) = true <-> link_free w K.
Proof.
  intros HK. unfold resolved, ancestors.
  rewrite drop_abs_render, split_names by now apply Forall_rev.
  destruct (rev K) as [|c l] eqn:Er.
  - apply (f_equal (@rev _)) in Er. rewrite rev_involutive in Er.
    subst K. cbn. split; [intros _; apply link_free_nil|reflexivity].
  - rewrite <- Er. change sep with (abs_render []).
    rewrite ancestors_from_names
      by (try apply Forall_rev; try assumption; constructor).
    split.
    + intros H above below E Hne.
      specialize (H (rev below) (rev above)).
      rewrite app_nil_r, rev_involutive in H. apply H.
      * now rewrite E, rev_app_distr.
      * intros E0. apply (f_equal (@rev _)) in E0.
        rewrite rev_involutive in E0. now apply Hne.
    + intros H pre suf E Hne. rewrite app_nil_r.
      apply (H (rev suf) (rev pre)).
      * apply (f_equal (@rev _)) in E.
        now rewrite rev_involutive, rev_app_distr in E.
      * intros E0. apply (f_equal (@rev _)) in E0.
        rewrite rev_involutive in E0. now apply Hne.
Qed.

(** The walk leaves a path without links as it is. *)
Lemma joinrealpath_loop_link_free (w : World)
  (resolve : list N -> list N -> seen_map -> walk)
  (cs st0 : list (list N)) (seen : seen_map) :
  Forall name_ok cs -> Forall name_ok st0 ->
  link_free w (rev cs ++ st0) ->
  joinrealpath_loop w resolve (abs_render st0) cs seen
  = inr (abs_render (rev cs ++ st0), true, seen).
Proof.
  revert st0. induction cs as [|c cs IH]; intros st0 Hcs Hst Hlf.
  - reflexivity.
  - apply Forall_cons in Hcs as [Hc Hcs].
    destruct (name_ok_tests c Hc) as (E1 & E2 & E3).
    cbn [joinrealpath_loop]. rewrite E1, E2, E3. cbn [orb].
    change (join (abs_render st0) c) with (join (render (WAbs st0)) c).
    rewrite render_push by assumption. cbn [wpush render].
    cbn [rev] in Hlf. rewrite <- app_assoc in Hlf. cbn [app] in Hlf.
    cbv zeta. rewrite has_nul_abs_render by now constructor.
    unfold readlink.
    rewrite isabs_abs_render, normpath_abs_render by now constructor.
    rewrite (Hlf (rev cs) (c :: st0) eq_refl) by discriminate.
    rewrite IH by (try assumption; now constructor).
    cbn [rev]. now rewrite <- app_assoc.
Qed.

Lemma realpath_walk_link_free (w : World) (K : list (list N)) :
  Forall name_ok K -> link_free w K -> recursion_limit w <> 0 ->
  realpath_walk w (abs_render K) = inr (abs_render K, true, ∅).
Proof.
  intros HK Hlf Hd. unfold realpath_walk.
  destruct (recursion_limit w) as [|depth]; [congruence|].
  cbn [joinrealpath].
  rewrite isabs_abs_render, drop_abs_render.
  rewrite split_names by now apply Forall_rev.
  destruct (rev K) as [|c l] eqn:Er.
  - apply (f_equal (@rev _)) in Er. rewrite rev_involutive in Er.
    now subst K.
  - rewrite <- Er. change sep with (abs_render []).
    rewrite joinrealpath_loop_link_free.
    + now rewrite rev_involutive, app_nil_r.
    + now apply Forall_rev.
    + constructor.
    + now rewrite rev_involutive, app_nil_r.
Qed.

(** A resolved path is a fixed point of [_final_path]. *)
Lemma final_path_fixed (w : World) (K : list (list N)) (st : list event) :
  Forall name_ok K -> link_free w K -> recursion_limit w <> 0 ->
  _final_path w (abs_render K) st
  = (Return (abs_render K), EvRealpath (abs_render K) :: st).
Proof.
  intros HK Hlf Hd. unfold _final_path, call_realpath.
  rewrite normpath_abs_render by assumption.
  unfold bind, emit.
  rewrite realpath_walk_link_free by assumption.
  now rewrite isabs_abs_render, normpath_abs_render.
Qed.


(** ** The working directory *)



(** ** Paths given letter by letter *)

Lemma name_okb_ok (c : list N) : name_okb c = true -> name_ok c.
Proof.
  unfold name_okb. rewrite !andb_true_iff, !negb_true_iff.
  intros (((H1 & H2) & H3) & H4).
  apply str_eqb_neq in H1, H2, H3.
  rewrite forallb_forall in H4.
  repeat split; try assumption; intros Hin;
    apply list_elem_of_In, H4 in Hin; discriminate.
Qed.

Lemma names_okb_ok (K : list (list N)) :
  forallb name_okb K = true -> Forall name_ok K.
Proof.
  intros H. apply Forall_forall. intros c Hc. apply name_okb_ok.
  rewrite forallb_forall in H. now apply H, list_elem_of_In.
Qed.

(** A path written out whose names are no links stays as it is. *)
Lemma final_path_plain (w : World) (K : list (list N)) (st : list event) :
  forallb name_okb K = true ->
  resolved w (abs_render K) = true -> recursion_limit w <> 0 ->
  _final_path w (abs_render K) st
  = (Return (abs_render K), EvRealpath (abs_render K) :: st).
Proof.
  intros HK%names_okb_ok Hr Hd.
  apply final_path_fixed; try assumption. now apply resolved_abs_render.
Qed.

(** ** C5: a line of [ldconfig -p] *)

Lemma lstrip_spaces (ws s : list N) :
  forallb isspace ws = true -> lstrip (ws ++ s) = lstrip s.
Proof.
  induction ws as [|c ws IH]; [reflexivity|].
  simpl. intros [Hc Hws]%andb_true_iff. rewrite Hc. now apply IH.
Qed.

Lemma index_of_app_r (c : N) (x y : list N) :
  index_of c x = None ->
  index_of c (x ++ y) = (fun k => length x + k) <$> index_of c y.
Proof.
  induction x as [|a x IH]; simpl.
  - intros _. now destruct (index_of c y).
  - destruct (a =? c)%N; [discriminate|].
    destruct (index_of c x); [discriminate|]. intros _.
    rewrite IH by reflexivity. now destruct (index_of c y).
Qed.

(** After the leading whitespace, the rest of the pattern reads
    [libm.so.6 (libc6,x86-64] off the line. *)
Lemma ldconfig_expr_reads_libm_line (n : nat) (g : caps) (post : list N) :
  match_here
    (GroupOpen :: verbatim (pystr "lib") ++ escape (pystr "m")
     ++ [Chr 46%N; Plus notspace; GroupClose; Plus isspace; Chr 40%N]
     ++ verbatim (pystr "libc6,x86-64"))
    g n (libm_line ++ [10%N] ++ post)
  = Some (23 + n, (Some n, Some (9 + n))).
Proof. reflexivity. Qed.

Lemma search_ldconfig_libm_line (pre ws post : list N) :
  ws <> [] -> forallb isspace ws = true ->
  no_match_before (ldconfig_expr (pystr "m") (pystr "libc6,x86-64"))
    (pre ++ ws ++ libm_line ++ [10%N] ++ post) (length pre) ->
  exists m,
    search (ldconfig_expr (pystr "m") (pystr "libc6,x86-64"))
      (pre ++ ws ++ libm_line ++ [10%N] ++ post) = Some m
    /\ m_start m = length pre
    /\ m_end m = length pre + length ws + 23.
Proof.
  intros Hws1 Hws2 Hpre.
  set (text := pre ++ ws ++ libm_line ++ [10%N] ++ post).
  assert (Hm : match_here (ldconfig_expr (pystr "m") (pystr "libc6,x86-64"))
                 (None, None) (length pre)
                 (ws ++ libm_line ++ [10%N] ++ post)
               = Some (23 + (length pre + length ws),
                       (Some (length pre + length ws),
                        Some (9 + (length pre + length ws))))).
  { change (ldconfig_expr (pystr "m") (pystr "libc6,x86-64")) with
      (Plus isspace
       :: GroupOpen :: verbatim (pystr "lib") ++ escape (pystr "m")
          ++ [Chr 46%N; Plus notspace; GroupClose; Plus isspace; Chr 40%N]
          ++ verbatim (pystr "libc6,x86-64")).
    apply plus_greedy; [assumption|assumption|reflexivity|].
    apply ldconfig_expr_reads_libm_line. }
  unfold search. fold text. unfold text at 2.
  rewrite search_from_skip by (intros j Hj; now apply Hpre).
  simpl Nat.add.
  destruct ws as [|c ws]; [congruence|].
  change ((c :: ws) ++ libm_line ++ [10%N] ++ post)
    with (c :: (ws ++ libm_line ++ [10%N] ++ post)) in Hm |- *.
  cbn [search_from]. rewrite Hm.
  eexists. split; [reflexivity|]. cbn [m_start m_end]. split; lia.
Qed.

(** The path the code cuts out of the text once the line is matched. *)
Lemma ldconfig_line_path (pre ws post : list N) :
  forallb isspace ws = true ->
  let text := pre ++ ws ++ libm_line ++ [10%N] ++ post in
  let end_of_line := find text 10%N (length pre + length ws + 23) in
  strip (last_item (split (pystr "=>")
                      (strip (slice text (Z.of_nat (length pre))
                                end_of_line))))
  = libm_path.
Proof.
  intros Hws text end_of_line.
  assert (He : end_of_line
               = Z.of_nat (length pre + (length ws + length libm_line))).
  { unfold end_of_line, find, text.
    replace (pre ++ ws ++ libm_line ++ [10%N] ++ post)
      with ((pre ++ ws ++ take 23 libm_line)
            ++ drop 23 libm_line ++ [10%N] ++ post).
    2:{ rewrite <- !app_assoc. reflexivity. }
    replace (length pre + length ws + 23)
      with (length (pre ++ ws ++ take 23 libm_line))
      by (rewrite !length_app; simpl; lia).
    change skipn with (@drop N). rewrite drop_app_length.
    rewrite index_of_app_r by reflexivity.
    cbn [index_of app N.eqb Pos.eqb fmap option_fmap option_map].
    rewrite !length_app. f_equal. vm_compute (length libm_line).
    vm_compute (length (take 23 libm_line)).
    vm_compute (length (drop 23 libm_line)). lia. }
  rewrite He. unfold text.
  replace (pre ++ ws ++ libm_line ++ [10%N] ++ post)
    with (pre ++ (ws ++ libm_line) ++ [10%N] ++ post)
    by (now rewrite <- !app_assoc).
  replace (length ws + length libm_line) with (length (ws ++ libm_line))
    by (now rewrite length_app).
  rewrite slice_middle.
  unfold strip at 2. rewrite lstrip_spaces by assumption.
  reflexivity.
Qed.

(** C5, as stated, fails where the code follows its pattern: only the
    first match counts, and a match wants whitespace before [lib].
    - With an older [libm.so.5] listed first, the listing contains the
      line (after a tab, followed by a line break) and the result is the
      other library.
    - A listing that is just the line, with nothing before it, gives
      [None]. *)
Lemma ldconfig_first_match_wins :
  let older := pystr "libm.so.5 (libc6,x86-64) => /opt/old/libm.so.5" in
  let two := [9%N] ++ older ++ [10%N] ++ [9%N] ++ libm_line ++ [10%N] in
  contains ([9%N] ++ libm_line ++ [10%N]) two
  /\ _abi_type (ldconfig_world two) = pystr "libc6,x86-64"
  /\ fst (_ldconfig_search (ldconfig_world two) (pystr "m") [])
     = Return (Some (pystr "/opt/old/libm.so.5"))
  /\ fst (_ldconfig_search (ldconfig_world two) (pystr "m") [])
     <> fst ((p <- _final_path (ldconfig_world two) libm_path ;;
              ret (Some p)) [])
  /\ contains libm_line (libm_line ++ [10%N])
  /\ fst (_ldconfig_search (ldconfig_world (libm_line ++ [10%N]))
            (pystr "m") [])
     = Return None.
Proof.
  cbv zeta. repeat split.
  - exists ([9%N] ++ pystr "libm.so.5 (libc6,x86-64) => /opt/old/libm.so.5"
            ++ [10%N]), [].
    rewrite app_nil_r. now rewrite <- !app_assoc.
  - vm_compute. discriminate.
  - now exists [], [10%N].
Qed.

(** C5, amended.  When [ldconfig] is found and its output is some text
    free of matches, then whitespace, then the line, then a line break,
    and the ABI tag is [libc6,x86-64], [_ldconfig_search("m")] matches
    that line, cuts it at the line break, takes what follows [=>], and
    returns [_final_path] of [/lib/x86_64-linux-gnu/libm.so.6]: that
    path itself, where no part of it is a symbolic link. *)
Theorem ldconfig_search_libm_line (w : World) (executable : list N)
  (pre ws post : list N) (st st1 : list event) :
  find_executable w (pystr "ldconfig") = Some executable ->
  _execute w (executable ++ pystr " -p")
    (EvFindExecutable (pystr "ldconfig") :: st)
  = (Return (Some (pre ++ ws ++ libm_line ++ [10%N] ++ post)), st1) ->
  _abi_type w = pystr "libc6,x86-64" ->
  ws <> [] -> forallb isspace ws = true ->
  no_match_before (ldconfig_expr (pystr "m") (pystr "libc6,x86-64"))
    (pre ++ ws ++ libm_line ++ [10%N] ++ post) (length pre) ->
  _ldconfig_search w (pystr "m") st
  = (p <- _final_path w libm_path ;; ret (Some p)) st1
  /\ (recursion_limit w <> 0 -> resolved w libm_path = true ->
      _ldconfig_search w (pystr "m") st
      = (Return (Some libm_path), EvRealpath libm_path :: st1)).
Proof.
  intros Hexe Hout Habi Hws1 Hws2 Hpre.
  assert (Hm : _ldconfig_search w (pystr "m") st
               = (p <- _final_path w libm_path ;; ret (Some p)) st1).
  { unfold _ldconfig_search, call_find_executable.
    unfold bind at 1 2, emit at 1, ret at 1. rewrite Hexe.
    unfold bind at 1. rewrite Hout. rewrite Habi. cbv zeta.
    destruct (search_ldconfig_libm_line pre ws post Hws1 Hws2 Hpre)
      as (m & -> & Hs & He).
    rewrite Hs, He. now rewrite (ldconfig_line_path pre ws post Hws2). }
  split; [exact Hm|]. intros Hd Hr. rewrite Hm. unfold bind.
  change libm_path
    with (abs_render [pystr "libm.so.6"; pystr "x86_64-linux-gnu";
                      pystr "lib"]) in *.
  now rewrite final_path_plain.
Qed.

Lemma ldconfig_search_libm_line_witness :
  _ldconfig_search
    (ldconfig_world (pystr "2 libs found in cache" ++ [10%N; 9%N]
                     ++ libm_line ++ [10%N]))
    (pystr "m") []
  = (Return (Some libm_path),
     [EvRealpath libm_path;
      EvPopen [pystr "/sbin/ldconfig"; pystr "-p"];
      EvFindExecutable (pystr "ldconfig")]).
Proof.
  refine (proj2 (ldconfig_search_libm_line
                   (ldconfig_world (pystr "2 libs found in cache"
                                    ++ [10%N; 9%N] ++ libm_line ++ [10%N]))
                   (pystr "/sbin/ldconfig")
                   (pystr "2 libs found in cache") [10%N; 9%N] [] [] _
                   eq_refl _ eq_refl _ eq_refl _) _ _).
  - vm_compute. reflexivity.
  - discriminate.
  - intros j Hj.
    do 21 (destruct j as [|j]; [vm_compute; reflexivity|]).
    vm_compute in Hj. lia.
  - discriminate.
  - vm_compute. reflexivity.
Defined.

(** A slip next to C5.  When the matched line is the last one and no line
    break follows it, [find] returns -1 and the slice ends one character
    early: the path loses its last character. *)
Example ldconfig_last_line_is_cut :
  fst (_ldconfig_search (ldconfig_world ([9%N] ++ libm_line)) (pystr "m") [])
  = Return (Some (pystr "/lib/x86_64-linux-gnu/libm.so.")).
Proof. vm_compute. reflexivity. Qed.

(** ** C8: what [find_library] returns *)








(** * More properties of the module *)

(** ** [_local_search] *)

Lemma local_first_file_skips (w : World) (pre rest : list (list N))
  (st : list event) :
  Forall (fun x => isfile w x = false) pre ->
  local_first_file w (pre ++ rest) st
  = local_first_file w rest ((EvIsfile <$> rev pre) ++ st).
Proof.
  revert st. induction pre as [|x pre IH]; intros st H; [reflexivity|].
  apply Forall_cons in H as [Hx H].
  cbn [app local_first_file]. unfold bind at 1, emit at 1. rewrite Hx.
  rewrite IH by assumption. f_equal.
  cbn [rev]. rewrite fmap_app. cbn [fmap list_fmap].
  now rewrite <- app_assoc.
Qed.

Lemma local_search_run (w : World) (library cwd : list N)
  (filenames : list (list N)) (st : list event) :
  getcwd w = inr cwd ->
  glob w (local_glob cwd library) = inr filenames ->
  _local_search w library st
  = local_first_file w filenames
      (EvGlob (local_glob cwd library) :: EvGetcwd :: st).
Proof.
  intros Hc Hg. unfold _local_search, call_getcwd, call_glob.
  unfold bind at 1 2, emit at 1. rewrite Hc.
  unfold ret at 1. unfold bind at 1 2, emit at 1.
  fold (local_glob cwd library). now rewrite Hg.
Qed.

(** X1.  [_local_search] asks for the working directory, then [glob] for
    [lib<name>.so*] in it.  When [os.getcwd()] raises its [OSError] (the
    directory was removed), or [glob] its [ValueError], [_local_search]
    raises it at once.  Otherwise it returns [_final_path] of the first
    name given by [glob] that is a regular file: the names before it are
    tested and passed over, the names after it are not even tested.  When
    no name is a regular file (or [glob] gives none) it returns [None]. *)
Theorem local_search_first_regular_file (w : World) (library : list N)
  (st : list event) :
  (forall errno,
     getcwd w = inl errno ->
     _local_search w library st = (Raise (OSError errno), EvGetcwd :: st))
  /\ (forall cwd msg,
        getcwd w = inr cwd ->
        glob w (local_glob cwd library) = inl msg ->
        _local_search w library st
        = (Raise (ValueError msg),
           EvGlob (local_glob cwd library) :: EvGetcwd :: st))
  /\ (forall cwd pre f post,
        getcwd w = inr cwd ->
        glob w (local_glob cwd library) = inr (pre ++ f :: post) ->
        Forall (fun x => isfile w x = false) pre ->
        isfile w f = true ->
        _local_search w library st
        = (p <- _final_path w f ;; ret (Some p))
            (EvIsfile f :: (EvIsfile <$> rev pre)
             ++ EvGlob (local_glob cwd library) :: EvGetcwd :: st))
  /\ (forall cwd filenames,
        getcwd w = inr cwd ->
        glob w (local_glob cwd library) = inr filenames ->
        Forall (fun x => isfile w x = false) filenames ->
        _local_search w library st
        = (Return None,
           (EvIsfile <$> rev filenames)
           ++ EvGlob (local_glob cwd library) :: EvGetcwd :: st)).
Proof.
  split; [|split; [|split]].
  - intros errno Hc. unfold _local_search, call_getcwd.
    unfold bind at 1 2, emit at 1. now rewrite Hc.
  - intros cwd msg Hc Hg. unfold _local_search, call_getcwd, call_glob.
    unfold bind at 1 2, emit at 1. rewrite Hc.
    unfold ret at 1. unfold bind at 1 2, emit at 1.
    fold (local_glob cwd library). now rewrite Hg.
  - intros cwd pre f post Hc Hg Hpre Hf.
    rewrite (local_search_run w library cwd _ st Hc Hg).
    rewrite local_first_file_skips by assumption.
    cbn [local_first_file]. unfold bind at 1, emit at 1. now rewrite Hf.
  - intros cwd filenames Hc Hg Hall.
    rewrite (local_search_run w library cwd _ st Hc Hg).
    rewrite <- (app_nil_r filenames) at 1.
    now rewrite local_first_file_skips by assumption.
Qed.

Lemma local_search_first_regular_file_witness :
  fst (_local_search nocwd_world (pystr "foo") [])
  = Raise (OSError ENOENT)
  /\ fst (_local_search local_world (pystr "foo") [])
     = Return (Some (pystr "/home/user/libfoo.so.1"))
  /\ fst (_local_search local_world (pystr "bar") []) = Return None.
Proof.
  pose proof (local_search_first_regular_file nocwd_world (pystr "foo") [])
    as (H0 & _).
  pose proof (local_search_first_regular_file local_world (pystr "foo") [])
    as (_ & _ & H1 & _).
  pose proof (local_search_first_regular_file local_world (pystr "bar") [])
    as (_ & _ & _ & H2).
  split; [|split].
  - now rewrite (H0 ENOENT eq_refl).
  - rewrite (H1 (pystr "/home/user") [pystr "/home/user/libfoo.so.d"]
               (pystr "/home/user/libfoo.so.1") [] eq_refl eq_refl);
      [vm_compute; reflexivity| |reflexivity].
    constructor; [reflexivity|constructor].
  - rewrite (H2 (pystr "/home/user") [] eq_refl eq_refl);
      [reflexivity|constructor].
Defined.

(** ** Without the tools *)

Lemma final_path_light (w : World) (path : list N) (st : list event) :
  exists evs,
    snd (_final_path w path st) = evs ++ st
    /\ forallb (fun ev => negb (heavy_event ev)) evs = true.
Proof.
  destruct (final_path_cases w path st)
    as [(e & _ & _ & ->)
       | [(r & ok & seen & _ & _ & ->)
         | [(r & ok & seen & cwd & _ & _ & _ & ->)
           | (r & ok & seen & errno & _ & _ & _ & ->)]]]; cbn [snd].
  - now exists [EvRealpath (normpath path)].
  - now exists [EvRealpath (normpath path)].
  - now exists [EvGetcwd; EvRealpath (normpath path)].
  - now exists [EvGetcwd; EvRealpath (normpath path)].
Qed.

Lemma local_first_file_light (w : World) (filenames : list (list N))
  (st : list event) :
  exists evs,
    snd (local_first_file w filenames st) = evs ++ st
    /\ forallb (fun ev => negb (heavy_event ev)) evs = true.
Proof.
  revert st. induction filenames as [|x l IH]; intros st.
  - now exists [].
  - cbn [local_first_file]. unfold bind at 1, emit at 1.
    destruct (isfile w x).
    + destruct (final_path_light w x (EvIsfile x :: st))
        as (evs & Hs & H).
      exists (evs ++ [EvIsfile x]). split.
      * unfold bind, ret.
        destruct (_final_path w x _) as [[p|e] st1]; cbn [snd] in Hs |- *;
          rewrite Hs; now rewrite <- app_assoc.
      * rewrite forallb_app, H. reflexivity.
    + destruct (IH (EvIsfile x :: st)) as (evs & -> & H).
      exists (evs ++ [EvIsfile x]). split.
      * now rewrite <- app_assoc.
      * rewrite forallb_app, H. reflexivity.
Qed.

Lemma local_search_light (w : World) (library : list N) (st : list event) :
  exists evs,
    snd (_local_search w library st) = evs ++ st
    /\ forallb (fun ev => negb (heavy_event ev)) evs = true.
Proof.
  unfold _local_search, call_getcwd, call_glob.
  unfold bind at 1 2, emit at 1.
  destruct (getcwd w) as [errno|cwd]; [now exists [EvGetcwd]|].
  unfold ret at 1. unfold bind at 1 2, emit at 1.
  destruct (glob w _) as [msg|filenames].
  - eexists [EvGlob _; EvGetcwd]. split; reflexivity.
  - unfold ret at 1.
    match goal with |- context [local_first_file w ?l ?s] =>
      destruct (local_first_file_light w l s) as (evs & -> & H) end.
    eexists (evs ++ [EvGlob _; EvGetcwd]). split.
    + now rewrite <- app_assoc.
    + rewrite forallb_app, H. reflexivity.
Qed.

(** X2.  When neither [ldconfig] nor [cc] nor [gcc] is on the path,
    [find_library] is [_local_search]: the three lookups are all that
    happened before it, no process was started and no temporary file
    made. *)
Theorem find_library_without_tools (w : World) (library : list N)
  (st : list event) :
  find_executable w (pystr "ldconfig") = None ->
  find_executable w (pystr "cc") = None ->
  find_executable w (pystr "gcc") = None ->
  find_library w library st
  = _local_search w library
      (EvFindExecutable (pystr "gcc") :: EvFindExecutable (pystr "cc")
       :: EvFindExecutable (pystr "ldconfig") :: st)
  /\ forall evs,
       snd (find_library w library st) = evs ++ st ->
       forallb (fun ev => negb (heavy_event ev)) evs = true.
Proof.
  intros H1 H2 H3.
  assert (E : find_library w library st
              = _local_search w library
                  (EvFindExecutable (pystr "gcc")
                   :: EvFindExecutable (pystr "cc")
                   :: EvFindExecutable (pystr "ldconfig") :: st)).
  { unfold find_library, py_or, _ldconfig_search, _gcc_search, find_linker,
      py_or, call_find_executable, bind, emit, ret.
    rewrite H1. cbn [truthy]. rewrite H2. cbn [truthy]. rewrite H3.
    reflexivity. }
  split; [exact E|].
  intros evs Hevs. rewrite E in Hevs.
  match type of Hevs with
  | snd (_local_search w library ?s) = _ =>
      destruct (local_search_light w library s) as (evs' & Hq & Hall);
      rewrite Hq in Hevs
  end.
  assert (evs = evs' ++ [EvFindExecutable (pystr "gcc");
                         EvFindExecutable (pystr "cc");
                         EvFindExecutable (pystr "ldconfig")]) as ->.
  { apply (app_inv_tail st). rewrite <- Hevs, <- app_assoc. reflexivity. }
  rewrite forallb_app, Hall. reflexivity.
Qed.

Lemma find_library_without_tools_witness :
  fst (find_library local_world (pystr "foo") [])
  = Return (Some (pystr "/home/user/libfoo.so.1")).
Proof.
  rewrite (proj1 (find_library_without_tools local_world (pystr "foo") []
                    eq_refl eq_refl eq_refl)).
  reflexivity.
Defined.

(** ** Which linker *)

(** X3.  [_gcc_search] takes [cc] when it is on the path and does not look
    for [gcc] then; it looks for [gcc] only when [cc] is missing; and with
    neither it returns [None] after these two lookups, without a temporary
    file or a process. *)
Theorem gcc_search_linker_choice (w : World) (library : list N)
  (st : list event) :
  (forall linker,
     find_executable w (pystr "cc") = Some linker -> linker <> [] ->
     find_linker w st
     = (Return (Some linker), EvFindExecutable (pystr "cc") :: st))
  /\ (find_executable w (pystr "cc") = None ->
      find_linker w st
      = (Return (find_executable w (pystr "gcc")),
         EvFindExecutable (pystr "gcc") :: EvFindExecutable (pystr "cc")
         :: st))
  /\ (find_executable w (pystr "cc") = None ->
      find_executable w (pystr "gcc") = None ->
      _gcc_search w library st
      = (Return None,
         EvFindExecutable (pystr "gcc") :: EvFindExecutable (pystr "cc")
         :: st)).
Proof.
  split; [|split].
  - intros linker H Hne.
    unfold find_linker, py_or, call_find_executable, bind, emit, ret.
    rewrite H. destruct linker; [congruence|reflexivity].
  - intros H.
    unfold find_linker, py_or, call_find_executable, bind, emit, ret.
    now rewrite H.
  - intros H1 H2.
    unfold _gcc_search, find_linker, py_or, call_find_executable, bind,
      emit, ret.
    now rewrite H1, H2.
Qed.

Lemma gcc_search_linker_choice_witness :
  fst (find_linker (cc_world []) []) = Return (Some (pystr "/usr/bin/cc"))
  /\ fst (find_linker (gcc_world []) []) = Return (Some (pystr "/usr/bin/gcc"))
  /\ fst (_gcc_search bare_world (pystr "m") []) = Return None.
Proof.
  split; [|split].
  - rewrite (proj1 (gcc_search_linker_choice (cc_world []) [] [])
               (pystr "/usr/bin/cc") eq_refl); [reflexivity|discriminate].
  - rewrite (proj1 (proj2 (gcc_search_linker_choice (gcc_world []) [] []))
               eq_refl).
    reflexivity.
  - rewrite (proj2 (proj2 (gcc_search_linker_choice bare_world
                             (pystr "m") []))
               eq_refl eq_refl).
    reflexivity.
Defined.

(** ** Normalising twice *)

(** X4.  [_final_path] normalises its argument itself, so handing it an
    already normalised path changes nothing: the [normpath] that
    [_gcc_search] applies before calling it has no effect on the result. *)
Theorem final_path_of_normpath (w : World) (path : list N)
  (st : list event) :
  _final_path w (normpath path) st = _final_path w path st.
Proof.
  unfold _final_path. now rewrite normpath_idempotent.
Qed.

(** ** The temporary file of [_gcc_search], again *)

(** X5.  The link is expected to fail and the linker to remove its output
    file: when closing the temporary file raises [OSError] with [ENOENT]
    after the trace was captured, [_gcc_search] goes on exactly as if the
    close had succeeded, and parses the trace. *)
Theorem gcc_search_tolerates_removed_file (w : World)
  (library linker tmp : list N) (v : option (list N))
  (st st1 st2 : list event) :
  find_linker w st = (Return (Some linker), st1) ->
  mktemp w = inr tmp ->
  _execute w (gcc_command linker tmp library) (EvTmpOpen tmp :: st1)
  = (Return v, st2) ->
  tmp_close w tmp = None \/ tmp_close w tmp = Some ENOENT ->
  _gcc_search w library st
  = gcc_parse_trace w library (Some v) (EvTmpClose tmp :: st2).
Proof.
  intros Hl Hm He Hc.
  unfold _gcc_search. unfold bind at 1. rewrite Hl.
  unfold gcc_with_block, call_mktemp. rewrite Hm.
  unfold bind at 1, emit at 1, ret at 1. rewrite He.
  unfold call_tmp_close, bind, emit, ret, raise.
  destruct Hc as [-> | ->]; reflexivity.
Qed.

Lemma gcc_search_tolerates_removed_file_witness :
  fst (_gcc_search (cc_close_world libm_trace ENOENT) (pystr "m") [])
  = Return (Some (pystr "/usr/lib/x86_64-linux-gnu/libm.so")).
Proof.
  erewrite (gcc_search_tolerates_removed_file
              (cc_close_world libm_trace ENOENT) (pystr "m")
              (pystr "/usr/bin/cc") tmp_name (Some libm_trace) []
              [EvFindExecutable (pystr "cc")]);
    [| reflexivity | reflexivity | vm_compute; reflexivity
     | right; reflexivity].
  vm_compute. reflexivity.
Defined.

(** X6.  Any other [OSError] of the temporary file is raised again: when
    the file cannot be created, or when closing it fails with an [errno]
    other than [ENOENT], [_gcc_search] raises that [OSError], whatever the
    linker printed (and whatever else went wrong inside the block). *)
Theorem gcc_search_reraises_other_errors (w : World)
  (library linker : list N) (errno : Z) (st st1 : list event) :
  find_linker w st = (Return (Some linker), st1) ->
  errno <> ENOENT ->
  (mktemp w = inl errno ->
   _gcc_search w library st = (Raise (OSError errno), st1))
  /\ (forall tmp,
        mktemp w = inr tmp ->
        tmp_close w tmp = Some errno ->
        fst (_gcc_search w library st) = Raise (OSError errno)).
Proof.
  intros Hl Hne. apply Z.eqb_neq in Hne. split.
  - intros Hm. unfold _gcc_search. unfold bind at 1. rewrite Hl.
    unfold gcc_with_block, call_mktemp. rewrite Hm.
    unfold raise. cbn beta iota. now rewrite Hne.
  - intros tmp Hm Hc. unfold _gcc_search. unfold bind at 1. rewrite Hl.
    unfold gcc_with_block, call_mktemp. rewrite Hm.
    unfold bind at 1, emit at 1, ret at 1.
    destruct (_execute w _ _) as [[v|e] st2];
      unfold call_tmp_close, bind, emit, ret, raise; rewrite Hc;
      cbn beta iota; now rewrite Hne.
Qed.

Lemma gcc_search_reraises_other_errors_witness :
  fst (_gcc_search readonly_tmp_world (pystr "m") [])
  = Raise (OSError EACCES)
  /\ fst (_gcc_search (cc_close_world libm_trace EACCES) (pystr "m") [])
     = Raise (OSError EACCES).
Proof.
  split.
  - now rewrite (proj1 (gcc_search_reraises_other_errors
                          readonly_tmp_world (pystr "m")
                          (pystr "/usr/bin/cc") EACCES []
                          [EvFindExecutable (pystr "cc")] eq_refl
                          ltac:(discriminate)) eq_refl).
  - exact (proj2 (gcc_search_reraises_other_errors
                    (cc_close_world libm_trace EACCES) (pystr "m")
                    (pystr "/usr/bin/cc") EACCES []
                    [EvFindExecutable (pystr "cc")] eq_refl
                    ltac:(discriminate)) tmp_name eq_refl eq_refl).
Defined.

(** ** What can be raised *)













(** ** Output that is not UTF-8 *)

(** X8.  The captured bytes are decoded outside the [try] of [_execute]:
    when they are not valid UTF-8, [_execute] raises [UnicodeDecodeError],
    and so does [_ldconfig_search]; [find_library] then raises too, without
    trying the linker or the working directory. *)
Theorem undecodable_output_raises (w : World) (command : list N)
  (args : list (list N)) (pstdout : list Byte.byte) (st : list event) :
  shsplit command = inr args ->
  popen w args = inr pstdout ->
  decode pstdout = None ->
  _execute w command st = (Raise UnicodeDecodeError, EvPopen args :: st)
  /\ (forall library executable,
        find_executable w (pystr "ldconfig") = Some executable ->
        command = executable ++ pystr " -p" ->
        find_library w library st
        = (Raise UnicodeDecodeError,
           EvPopen args :: EvFindExecutable (pystr "ldconfig") :: st)).
Proof.
  intros Hs Hp Hd.
  assert (He : forall st', _execute w command st'
                           = (Raise UnicodeDecodeError, EvPopen args :: st')).
  { intros st'. rewrite (execute_output _ _ _ _ _ Hs Hp). now rewrite Hd. }
  split; [apply He|].
  intros library executable Hexe ->.
  unfold find_library, py_or, _ldconfig_search, call_find_executable.
  unfold bind at 1 2 3, emit at 1, ret at 1. rewrite Hexe.
  unfold bind at 1. now rewrite He.
Qed.

Lemma undecodable_output_raises_witness :
  isfile latin1_world (pystr "/home/user/libfoo.so.1") = true
  /\ find_library latin1_world (pystr "foo") []
     = (Raise UnicodeDecodeError,
        [EvPopen [pystr "/sbin/ldconfig"; pystr "-p"];
         EvFindExecutable (pystr "ldconfig")]).
Proof.
  split; [reflexivity|].
  apply (proj2 (undecodable_output_raises latin1_world
                  (pystr "/sbin/ldconfig -p")
                  [pystr "/sbin/ldconfig"; pystr "-p"]
                  [Byte.x6c; Byte.x69; Byte.x62; Byte.xe9] []
                  eq_refl eq_refl eq_refl)
           (pystr "foo") (pystr "/sbin/ldconfig") eq_refl eq_refl).
Defined.

(** ** A name the tools do not mention *)

(** Where a greedy repetition matched, the rest of the pattern matched
    after some run of the class. *)
Lemma star_inv (p : N -> bool) (k : nat -> list N -> option (nat * caps))
  (i : nat) (s : list N) (r : nat * caps) :
  star p k i s = Some r ->
  exists a s',
    s = a ++ s' /\ forallb p a = true /\ k (i + length a) s' = Some r.
Proof.
  revert i. induction s as [|c s IH]; intros i; cbn [star].
  - intros H. exists [], []. cbn. now rewrite Nat.add_0_r.
  - destruct (p c) eqn:Hc.
    + destruct (star p k (S i) s) as [r'|] eqn:E.
      * intros [= <-]. destruct (IH _ E) as (a & s' & -> & Ha & Hk).
        exists (c :: a), s'. cbn. rewrite Hc, Ha.
        now rewrite Nat.add_succ_r.
      * intros H. exists [], (c :: s). cbn. now rewrite Nat.add_0_r.
    + intros H. exists [], (c :: s). cbn. now rewrite Nat.add_0_r.
Qed.

Lemma match_here_verbatim_split (lit : list N) (r' : list atom) (g : caps)
  (i : nat) (s : list N) (r : nat * caps) :
  match_here (verbatim lit ++ r') g i s = Some r ->
  exists s', s = lit ++ s' /\ match_here r' g (i + length lit) s' = Some r.
Proof.
  intros H. destruct (match_here_verbatim_inv _ _ _ _ _ _ H) as [s' ->].
  exists s'. split; [reflexivity|]. now rewrite match_here_verbatim in H.
Qed.

Lemma verbatim_app (a b : list N) :
  verbatim (a ++ b) = verbatim a ++ verbatim b.
Proof. unfold verbatim. apply fmap_app. Qed.

(** Both patterns have [lib], the name and a dot in them. *)
Lemma ldconfig_expr_needle (library abi_type : list N) :
  ldconfig_expr library abi_type
  = Plus isspace :: GroupOpen
    :: verbatim (needle library)
       ++ [Plus notspace; GroupClose; Plus isspace; Chr 40%N]
       ++ verbatim abi_type.
Proof.
  unfold ldconfig_expr, needle, escape. rewrite !verbatim_app.
  cbn [app]. rewrite <- !app_assoc. reflexivity.
Qed.

Lemma gcc_expr_needle (library : list N) :
  gcc_expr library
  = Star notparenspace :: verbatim (needle library) ++ [Star notparenspace].
Proof.
  unfold gcc_expr, needle, escape. rewrite !verbatim_app.
  cbn [app]. rewrite <- !app_assoc. reflexivity.
Qed.

Lemma ldconfig_expr_match_inv (library abi_type : list N) (g : caps)
  (i : nat) (s : list N) (r : nat * caps) :
  match_here (ldconfig_expr library abi_type) g i s = Some r ->
  contains (needle library) s.
Proof.
  rewrite ldconfig_expr_needle. cbn [match_here].
  destruct s as [|x s]; [discriminate|].
  destruct (isspace x); [|discriminate].
  intros H. apply star_inv in H as (a & s' & -> & _ & H).
  apply match_here_verbatim_split in H as (s'' & -> & _).
  exists (x :: a), s''. reflexivity.
Qed.

Lemma gcc_expr_match_inv (library : list N) (g : caps)
  (i : nat) (s : list N) (r : nat * caps) :
  match_here (gcc_expr library) g i s = Some r ->
  contains (needle library) s.
Proof.
  rewrite gcc_expr_needle. cbn [match_here].
  intros H. apply star_inv in H as (a & s' & -> & _ & H).
  apply match_here_verbatim_split in H as (s'' & -> & _).
  now exists a, s''.
Qed.

Lemma startswith_app (sub post : list N) : startswith sub (sub ++ post) = true.
Proof.
  induction sub as [|c sub IH]; [reflexivity|].
  simpl. now rewrite N.eqb_refl.
Qed.

Lemma contains_occurs (sub text : list N) :
  contains sub text -> occurs sub text = true.
Proof.
  intros (pre & post & ->). induction pre as [|c pre IH].
  - pose proof (startswith_app sub post) as H. cbn [app].
    destruct (sub ++ post); cbn [occurs]; now rewrite H.
  - change ((c :: pre) ++ sub ++ post) with (c :: (pre ++ sub ++ post)).
    cbn [occurs]. rewrite IH. apply orb_true_r.
Qed.

Lemma contains_drop (sub text : list N) (j : nat) :
  contains sub (drop j text) -> contains sub text.
Proof.
  intros (pre & post & H). exists (take j text ++ pre), post.
  rewrite <- (take_drop j text) at 1. rewrite H.
  now rewrite <- app_assoc.
Qed.

Lemma search_ldconfig_none (library abi_type text : list N) :
  ~ contains (needle library) text ->
  search (ldconfig_expr library abi_type) text = None.
Proof.
  intros Hno. apply search_from_none. intros j _.
  destruct (match_here _ _ _ _) as [r|] eqn:E; [|reflexivity].
  exfalso. apply Hno. eapply contains_drop, ldconfig_expr_match_inv, E.
Qed.

Lemma search_gcc_none (library text : list N) :
  ~ contains (needle library) text ->
  search (gcc_expr library) text = None.
Proof.
  intros Hno. apply search_from_none. intros j _.
  destruct (match_here _ _ _ _) as [r|] eqn:E; [|reflexivity].
  exfalso. apply Hno. eapply contains_drop, gcc_expr_match_inv, E.
Qed.

(** X9.  A name is matched literally: when the text [lib<name>.] occurs
    nowhere in what [ldconfig -p] printed, [_ldconfig_search] returns
    [None]; and when it occurs nowhere in the linker's trace (the
    temporary file closing cleanly or with [ENOENT]), so does
    [_gcc_search].  Whatever characters the name is made of, no other
    line or token can be taken for it. *)
Theorem resolvers_absent_without_mention (w : World) (library : list N)
  (st : list event) :
  (forall executable text st1,
     find_executable w (pystr "ldconfig") = Some executable ->
     _execute w (executable ++ pystr " -p")
       (EvFindExecutable (pystr "ldconfig") :: st)
     = (Return (Some text), st1) ->
     ~ contains (needle library) text ->
     _ldconfig_search w library st = (Return None, st1))
  /\ (forall linker tmp trace st1 st2,
        find_linker w st = (Return (Some linker), st1) ->
        mktemp w = inr tmp ->
        _execute w (gcc_command linker tmp library) (EvTmpOpen tmp :: st1)
        = (Return (Some trace), st2) ->
        tmp_close w tmp = None \/ tmp_close w tmp = Some ENOENT ->
        ~ contains (needle library) trace ->
        _gcc_search w library st = (Return None, EvTmpClose tmp :: st2)).
Proof.
  split.
  - intros executable text st1 Hexe He Hno.
    unfold _ldconfig_search, call_find_executable.
    unfold bind at 1 2, emit at 1, ret at 1. rewrite Hexe.
    unfold bind at 1. rewrite He. cbv zeta.
    now rewrite search_ldconfig_none.
  - intros linker tmp trace st1 st2 Hl Hm He Hc Hno.
    unfold _gcc_search. unfold bind at 1. rewrite Hl.
    unfold gcc_with_block, call_mktemp. rewrite Hm.
    unfold bind at 1, emit at 1, ret at 1. rewrite He.
    unfold call_tmp_close, bind, emit, ret, raise.
    destruct Hc as [-> | ->]; cbn beta iota;
      unfold gcc_parse_trace; cbv zeta;
      now rewrite search_gcc_none.
Qed.

Lemma resolvers_absent_without_mention_witness :
  _ldconfig_search
    (ldconfig_world (pystr "2 libs found in cache" ++ [10%N; 9%N]
                     ++ libm_line ++ [10%N]))
    (pystr ".") []
  = (Return None,
     [EvPopen [pystr "/sbin/ldconfig"; pystr "-p"];
      EvFindExecutable (pystr "ldconfig")])
  /\ fst (_gcc_search (cc_close_world libm_trace ENOENT) (pystr ".") [])
     = Return None.
Proof.
  split.
  - apply (proj1 (resolvers_absent_without_mention
                    (ldconfig_world (pystr "2 libs found in cache"
                                     ++ [10%N; 9%N] ++ libm_line ++ [10%N]))
                    (pystr ".") [])
             (pystr "/sbin/ldconfig")
             (pystr "2 libs found in cache" ++ [10%N; 9%N]
              ++ libm_line ++ [10%N])).
    + reflexivity.
    + vm_compute. reflexivity.
    + intros H%contains_occurs. vm_compute in H. discriminate.
  - erewrite (proj2 (resolvers_absent_without_mention
                       (cc_close_world libm_trace ENOENT) (pystr ".") [])
                (pystr "/usr/bin/cc") tmp_name libm_trace
                [EvFindExecutable (pystr "cc")]);
      [reflexivity | reflexivity | reflexivity | vm_compute; reflexivity
       | right; reflexivity
       | intros H%contains_occurs; vm_compute in H; discriminate].
Defined.

(** ** The token [_gcc_search] takes from the trace *)









(** ** Any line of [ldconfig -p] *)

Lemma lstrip_app_nonspace (u v : list N) (c : N) :
  isspace c = false -> lstrip (u ++ c :: v) = lstrip u ++ c :: v.
Proof.
  intros Hc. induction u as [|h u IH]; simpl.
  - now rewrite Hc.
  - destruct (isspace h); [exact IH|reflexivity].
Qed.

Lemma rstrip_app_nonspace (y seg : list N) (c : N) :
  isspace c = false -> rstrip (y ++ c :: seg) = y ++ c :: rstrip seg.
Proof.
  intros Hc. unfold rstrip.
  rewrite rev_app_distr. cbn [rev]. rewrite <- app_assoc. cbn [app].
  rewrite lstrip_app_nonspace by assumption.
  rewrite rev_app_distr. cbn [rev]. rewrite rev_involutive.
  rewrite <- app_assoc. reflexivity.
Qed.

Lemma lstrip_idempotent (s : list N) : lstrip (lstrip s) = lstrip s.
Proof.
  induction s as [|h s IH]; [reflexivity|].
  simpl. destruct (isspace h) eqn:E; [exact IH|].
  simpl. now rewrite E.
Qed.

Lemma rstrip_idempotent (s : list N) : rstrip (rstrip s) = rstrip s.
Proof.
  unfold rstrip. rewrite rev_involutive. now rewrite lstrip_idempotent.
Qed.

Lemma lstrip_snoc (u : list N) (h : N) :
  lstrip (u ++ [h])
  = match lstrip u with
    | [] => if isspace h then [] else [h]
    | l => l ++ [h]
    end.
Proof.
  induction u as [|x u IH]; simpl.
  - reflexivity.
  - destruct (isspace x); [exact IH|reflexivity].
Qed.

Lemma rstrip_cons (h : N) (s : list N) :
  rstrip (h :: s)
  = match rstrip s with
    | [] => if isspace h then [] else [h]
    | l => h :: l
    end.
Proof.
  unfold rstrip. cbn [rev]. rewrite lstrip_snoc.
  destruct (lstrip (rev s)) as [|x l] eqn:E.
  - simpl. now destruct (isspace h).
  - rewrite rev_app_distr. cbn [rev app].
    destruct (rev l ++ [x]) eqn:E'; [|reflexivity].
    now destruct (rev l).
Qed.

Lemma lstrip_rstrip (s : list N) : lstrip (rstrip s) = rstrip (lstrip s).
Proof.
  induction s as [|h s IH]; [reflexivity|].
  rewrite rstrip_cons. cbn [lstrip].
  destruct (isspace h) eqn:Eh.
  - rewrite <- IH. destruct (rstrip s) as [|x l]; [reflexivity|].
    cbn [lstrip]. now rewrite Eh.
  - rewrite rstrip_cons.
    destruct (rstrip s) as [|x l]; cbn [lstrip]; now rewrite Eh.
Qed.

(** Stripping what was stripped on the right already. *)
Lemma strip_rstrip (s : list N) : strip (rstrip s) = strip s.
Proof.
  unfold strip. now rewrite lstrip_rstrip, rstrip_idempotent.
Qed.

Lemma lstrip_suffix (s : list N) : exists t, s = t ++ lstrip s.
Proof.
  induction s as [|h s [t IH]]; [now exists []|].
  simpl. destruct (isspace h).
  - exists (h :: t). simpl. now rewrite <- IH.
  - now exists [].
Qed.

Lemma rstrip_prefix (s : list N) : exists t, s = rstrip s ++ t.
Proof.
  destruct (lstrip_suffix (rev s)) as [t E]. exists (rev t).
  unfold rstrip. rewrite <- rev_app_distr, <- E.
  now rewrite rev_involutive.
Qed.

Lemma startswith_inv (p s : list N) :
  startswith p s = true -> exists post, s = p ++ post.
Proof.
  revert s. induction p as [|x p IH]; intros s.
  - intros _. now exists s.
  - destruct s as [|y s]; [discriminate|]. simpl.
    intros [Hx Hp]%andb_true_iff. apply N.eqb_eq in Hx as ->.
    destruct (IH _ Hp) as [post ->]. now exists post.
Qed.

Lemma contains_cons (sub s : list N) (c : N) :
  contains sub s -> contains sub (c :: s).
Proof. intros (pre & post & ->). now exists (c :: pre), post. Qed.

(** Without the separator there is one piece. *)
Lemma split_go_whole (sep cur s : list N) :
  ~ contains sep s -> split_go sep 0 cur s = [rev cur ++ s].
Proof.
  revert cur. induction s as [|c s IH]; intros cur Hno.
  - simpl. now rewrite app_nil_r.
  - cbn [split_go].
    destruct (startswith sep (c :: s)) eqn:E.
    + exfalso. apply Hno. apply startswith_inv in E as [post ->].
      now exists [], post.
    + rewrite IH by (intros H; apply Hno; now apply contains_cons).
      cbn [rev]. now rewrite <- app_assoc.
Qed.

Lemma split_go_nonempty (sep cur s : list N) (skip : nat) :
  split_go sep skip cur s <> [].
Proof.
  revert skip cur. induction s as [|c s IH]; intros skip cur.
  - discriminate.
  - cbn [split_go]. destruct skip; [|apply IH].
    destruct (startswith sep (c :: s)); [discriminate|apply IH].
Qed.

Lemma last_item_cons (x : list N) (l : list (list N)) :
  l <> [] -> last_item (x :: l) = last_item l.
Proof. destruct l; [congruence|reflexivity]. Qed.

Lemma split_go_arrow (cur s : list N) :
  split_go (pystr "=>") 0 cur (61%N :: 62%N :: s)
  = rev cur :: split_go (pystr "=>") 0 [] s.
Proof. reflexivity. Qed.

Lemma split_go_other (sep cur s : list N) (c : N) :
  startswith sep (c :: s) = false ->
  split_go sep 0 cur (c :: s) = split_go sep 0 (c :: cur) s.
Proof. intros E. cbn [split_go]. now rewrite E. Qed.

(** The last piece is what follows the last [=>]. *)
Lemma last_split_arrow (seg : list N) (n : nat) :
  ~ contains (pystr "=>") seg ->
  forall y cur, length y <= n ->
    last_item (split_go (pystr "=>") 0 cur (y ++ pystr "=>" ++ seg)) = seg.
Proof.
  intros Hno. induction n as [|n IH]; intros y cur Hy.
  - destruct y; [|simpl in Hy; lia].
    change ([] ++ pystr "=>" ++ seg) with (61%N :: 62%N :: seg).
    rewrite split_go_arrow.
    rewrite last_item_cons by apply split_go_nonempty.
    now rewrite split_go_whole.
  - destruct y as [|c y].
    + apply (IH [] cur). simpl. lia.
    + change ((c :: y) ++ pystr "=>" ++ seg)
        with (c :: (y ++ pystr "=>" ++ seg)).
      destruct (startswith (pystr "=>") (c :: (y ++ pystr "=>" ++ seg)))
        eqn:E.
      * apply startswith_inv in E as [post E].
        change (pystr "=>" ++ post) with (61%N :: 62%N :: post) in E.
        injection E as -> E.
        destruct y as [|c' y]; [discriminate|].
        injection E as -> E.
        change ((62%N :: y) ++ pystr "=>" ++ seg)
          with (62%N :: (y ++ pystr "=>" ++ seg)).
        rewrite split_go_arrow.
        rewrite last_item_cons by apply split_go_nonempty.
        apply IH. simpl in Hy. lia.
      * rewrite split_go_other by assumption.
        apply IH. simpl in Hy. lia.
Qed.

(** What the code makes of a line: the text after the last [=>],
    stripped. *)
Lemma ldconfig_line_strip (ws y seg : list N) (c : N) :
  forallb isspace ws = true ->
  isspace c = false ->
  ~ contains (pystr "=>") seg ->
  strip (last_item (split (pystr "=>")
                      (strip (ws ++ (c :: y) ++ pystr "=>" ++ seg))))
  = strip seg.
Proof.
  intros Hws Hc Hno.
  unfold strip at 2. rewrite lstrip_spaces by assumption.
  change (lstrip ((c :: y) ++ pystr "=>" ++ seg))
    with (lstrip (c :: (y ++ pystr "=>" ++ seg))).
  cbn [lstrip]. rewrite Hc.
  replace (c :: y ++ pystr "=>" ++ seg)
    with (((c :: y) ++ [61%N]) ++ 62%N :: seg)
    by (now rewrite <- app_assoc).
  rewrite rstrip_app_nonspace by reflexivity.
  replace (((c :: y) ++ [61%N]) ++ 62%N :: rstrip seg)
    with ((c :: y) ++ pystr "=>" ++ rstrip seg)
    by (now rewrite <- app_assoc).
  unfold split.
  rewrite (last_split_arrow (rstrip seg) (length (c :: y))).
  - apply strip_rstrip.
  - intros (a & b & E). apply Hno.
    destruct (rstrip_prefix seg) as [t ->]. exists a, (b ++ t).
    rewrite E. now rewrite <- !app_assoc.
  - reflexivity.
Qed.

Lemma index_of_absent (c : N) (s : list N) : c ∉ s -> index_of c s = None.
Proof.
  induction s as [|x s IH]; [reflexivity|].
  intros [Hx Hs]%not_elem_of_cons. simpl.
  destruct (x =? c)%N eqn:E; [apply N.eqb_eq in E; congruence|].
  now rewrite IH.
Qed.

(** Where [find] sees the end of the line. *)
Lemma find_line_break (x y post : list N) :
  10%N ∉ y ->
  find (x ++ y ++ [10%N] ++ post) 10%N (length x)
  = Z.of_nat (length x + length y).
Proof.
  intros Hy. unfold find. change skipn with (@drop N).
  rewrite drop_app_length.
  rewrite index_of_app_r by now apply index_of_absent.
  cbn [app index_of N.eqb Pos.eqb fmap option_fmap option_map].
  f_equal. lia.
Qed.

Lemma find_no_line_break (x y : list N) :
  10%N ∉ y -> find (x ++ y) 10%N (length x) = (-1)%Z.
Proof.
  intros Hy. unfold find. change skipn with (@drop N).
  rewrite drop_app_length. now rewrite index_of_absent.
Qed.

(** [s[len(x):-1]] *)
Lemma slice_but_last (x y : list N) (c : N) :
  slice (x ++ y ++ [c]) (Z.of_nat (length x)) (-1) = y.
Proof.
  unfold slice. rewrite !length_app. cbn [length].
  assert (E1 : (Z.of_nat (length x) <? 0)%Z = false)
    by (apply Z.ltb_ge; lia).
  rewrite E1. change (-1 <? 0)%Z with true. cbv iota.
  rewrite Z.min_l by lia. rewrite Z.max_r by lia.
  replace (Z.to_nat (-1 + Z.of_nat (length x + (length y + 1))
                     - Z.of_nat (length x)))
    with (length y) by lia.
  rewrite Nat2Z.id. change skipn with (@drop N).
  rewrite drop_app_length. change firstn with (@take N).
  now rewrite take_app_length.
Qed.

(** The pattern reads an entry: whitespace, [lib<name>.<version>],
    whitespace, an opening parenthesis and the ABI tag. *)
Lemma ldconfig_expr_reads_entry (library abi_type ws version sp rest : list N)
  (i : nat) :
  ws <> [] -> forallb isspace ws = true ->
  version <> [] -> forallb notspace version = true ->
  sp <> [] -> forallb isspace sp = true ->
  exists g,
    match_here (ldconfig_expr library abi_type) (None, None) i
      (ws ++ (needle library ++ version) ++ sp ++ [40%N] ++ abi_type ++ rest)
    = Some (i + length (ws ++ (needle library ++ version) ++ sp ++ [40%N]
                        ++ abi_type), g).
Proof.
  intros Hws1 Hws2 Hv1 Hv2 Hsp1 Hsp2.
  eexists. rewrite ldconfig_expr_needle.
  apply plus_greedy; [assumption|assumption| |].
  { now destruct library. }
  rewrite match_here_GroupOpen. rewrite <- !app_assoc.
  rewrite match_here_verbatim.
  apply plus_greedy; [assumption|assumption| |].
  { destruct sp as [|c sp]; [congruence|]. simpl in Hsp2 |- *.
    apply andb_true_iff in Hsp2 as [Hc _]. unfold notspace.
    now rewrite Hc. }
  rewrite match_here_GroupClose.
  apply plus_greedy; [assumption|assumption|reflexivity|].
  change ([40%N] ++ abi_type ++ rest) with (40%N :: (abi_type ++ rest)).
  cbn [match_here N.eqb Pos.eqb].
  rewrite <- (app_nil_r (verbatim abi_type)).
  rewrite match_here_verbatim. cbn [match_here].
  f_equal. f_equal. rewrite !length_app. simpl. lia.
Qed.

Lemma search_ldconfig_entry (library abi_type pre ws version sp rest : list N) :
  ws <> [] -> forallb isspace ws = true ->
  version <> [] -> forallb notspace version = true ->
  sp <> [] -> forallb isspace sp = true ->
  no_match_before (ldconfig_expr library abi_type)
    (pre ++ ws ++ (needle library ++ version) ++ sp ++ [40%N] ++ abi_type
     ++ rest) (length pre) ->
  exists m,
    search (ldconfig_expr library abi_type)
      (pre ++ ws ++ (needle library ++ version) ++ sp ++ [40%N] ++ abi_type
       ++ rest) = Some m
    /\ m_start m = length pre
    /\ m_end m = length (pre ++ ws ++ (needle library ++ version) ++ sp
                         ++ [40%N] ++ abi_type).
Proof.
  intros Hws1 Hws2 Hv1 Hv2 Hsp1 Hsp2 Hpre.
  destruct (ldconfig_expr_reads_entry library abi_type ws version sp rest
              (length pre) Hws1 Hws2 Hv1 Hv2 Hsp1 Hsp2) as [g Hm].
  unfold search.
  rewrite search_from_skip by (intros j Hj; now apply Hpre).
  simpl Nat.add.
  destruct ws as [|c ws]; [congruence|].
  change ((c :: ws) ++ (needle library ++ version) ++ sp ++ [40%N]
          ++ abi_type ++ rest)
    with (c :: (ws ++ (needle library ++ version) ++ sp ++ [40%N]
                ++ abi_type ++ rest)) in Hm |- *.
  cbn [search_from]. rewrite Hm.
  eexists. split; [reflexivity|]. cbn [m_start m_end].
  split; [reflexivity|]. rewrite (length_app pre). reflexivity.
Qed.

(** [_ldconfig_search] once the pattern has matched. *)
Lemma ldconfig_search_matched (w : World)
  (executable library text : list N) (m : rmatch) (st st1 : list event) :
  find_executable w (pystr "ldconfig") = Some executable ->
  _execute w (executable ++ pystr " -p")
    (EvFindExecutable (pystr "ldconfig") :: st)
  = (Return (Some text), st1) ->
  search (ldconfig_expr library (_abi_type w)) text = Some m ->
  _ldconfig_search w library st
  = (p <- _final_path w
            (strip (last_item
                      (split (pystr "=>")
                         (strip (slice text (Z.of_nat (m_start m))
                                   (find text 10%N (m_end m))))))) ;;
     ret (Some p)) st1.
Proof.
  intros Hexe Hout Hs.
  unfold _ldconfig_search, call_find_executable.
  unfold bind at 1 2, emit at 1, ret at 1. rewrite Hexe.
  unfold bind at 1. rewrite Hout. cbv zeta. rewrite Hs.
  reflexivity.
Qed.

Lemma needle_head (library : list N) :
  needle library = 108%N :: 105%N :: 98%N :: library ++ [46%N].
Proof. reflexivity. Qed.

(** X11.  What [_ldconfig_search] returns for any name.  Let the listing
    be: some text without a match, whitespace, [lib<name>.<version>],
    whitespace, an opening parenthesis, the ABI tag of the platform, more
    of the description, [=>], a last part [seg] without another [=>], a
    line break, and anything after it.  Then the result is [_final_path]
    of [seg] stripped of the whitespace around it.  The name is taken
    literally, whatever characters it is made of. *)
Theorem ldconfig_search_entry (w : World)
  (executable library pre ws version sp desc seg post : list N)
  (st st1 : list event) :
  find_executable w (pystr "ldconfig") = Some executable ->
  _execute w (executable ++ pystr " -p")
    (EvFindExecutable (pystr "ldconfig") :: st)
  = (Return (Some (pre ++ ws ++ (needle library ++ version) ++ sp
                   ++ [40%N] ++ _abi_type w
                   ++ desc ++ pystr "=>" ++ seg ++ [10%N] ++ post)), st1) ->
  ws <> [] -> forallb isspace ws = true ->
  version <> [] -> forallb notspace version = true ->
  sp <> [] -> forallb isspace sp = true ->
  10%N ∉ desc -> 10%N ∉ seg ->
  ~ contains (pystr "=>") seg ->
  no_match_before (ldconfig_expr library (_abi_type w))
    (pre ++ ws ++ (needle library ++ version) ++ sp ++ [40%N] ++ _abi_type w
     ++ desc ++ pystr "=>" ++ seg ++ [10%N] ++ post) (length pre) ->
  _ldconfig_search w library st
  = (p <- _final_path w (strip seg) ;; ret (Some p)) st1.
Proof.
  intros Hexe Hout Hws1 Hws2 Hv1 Hv2 Hsp1 Hsp2 Hdesc Hseg Hno Hpre.
  destruct (search_ldconfig_entry library (_abi_type w) pre ws version sp
              (desc ++ pystr "=>" ++ seg ++ [10%N] ++ post)
              Hws1 Hws2 Hv1 Hv2 Hsp1 Hsp2 Hpre) as (m & Hs & Hstart & Hend).
  rewrite (ldconfig_search_matched w executable library _ m st st1
             Hexe Hout Hs).
  rewrite Hstart, Hend.
  set (head := pre ++ ws ++ (needle library ++ version) ++ sp ++ [40%N]
               ++ _abi_type w).
  replace (pre ++ ws ++ (needle library ++ version) ++ sp ++ [40%N]
           ++ _abi_type w ++ desc ++ pystr "=>" ++ seg ++ [10%N] ++ post)
    with (head ++ (desc ++ pystr "=>" ++ seg) ++ [10%N] ++ post)
    by (unfold head; now rewrite <- !app_assoc).
  rewrite find_line_break.
  2:{ rewrite !not_elem_of_app. repeat split; try assumption.
      intros H. vm_compute in H.
      repeat (apply elem_of_cons in H as [H|H]; [discriminate|]).
      now apply not_elem_of_nil in H. }
  set (line := ws ++ (needle library ++ version) ++ sp ++ [40%N]
               ++ _abi_type w ++ desc ++ pystr "=>" ++ seg).
  replace (head ++ (desc ++ pystr "=>" ++ seg) ++ [10%N] ++ post)
    with (pre ++ line ++ [10%N] ++ post)
    by (unfold head, line; now rewrite <- !app_assoc).
  replace (length head + length (desc ++ pystr "=>" ++ seg))
    with (length pre + length line)
    by (unfold head, line; rewrite !length_app; simpl; lia).
  rewrite slice_middle. unfold line.
  rewrite needle_head.
  replace (ws ++ ((108%N :: 105%N :: 98%N :: library ++ [46%N]) ++ version)
           ++ sp ++ [40%N] ++ _abi_type w ++ desc ++ pystr "=>" ++ seg)
    with (ws ++ (108%N :: (105%N :: 98%N :: library ++ [46%N]) ++ version
                 ++ sp ++ [40%N] ++ _abi_type w ++ desc)
          ++ pystr "=>" ++ seg)
    by (cbn [app]; rewrite <- !app_assoc; cbn [app];
        now rewrite <- !app_assoc).
  rewrite ldconfig_line_strip by (assumption || reflexivity).
  reflexivity.
Qed.

Lemma ldconfig_search_entry_witness :
  _ldconfig_search
    (ldconfig_world (pystr "1 libs found in cache" ++ [10%N; 9%N]
                     ++ libssl_line ++ [10%N]))
    (pystr "ssl") []
  = (Return (Some (pystr "/usr/lib/x86_64-linux-gnu/libssl.so.3")),
     [EvRealpath (pystr "/usr/lib/x86_64-linux-gnu/libssl.so.3");
      EvPopen [pystr "/sbin/ldconfig"; pystr "-p"];
      EvFindExecutable (pystr "ldconfig")]).
Proof.
  etransitivity.
  - apply (ldconfig_search_entry
             (ldconfig_world (pystr "1 libs found in cache" ++ [10%N; 9%N]
                              ++ libssl_line ++ [10%N]))
             (pystr "/sbin/ldconfig") (pystr "ssl")
             (pystr "1 libs found in cache") [10%N; 9%N]
             (pystr "so.3") [32%N] (pystr ") ")
             (pystr " /usr/lib/x86_64-linux-gnu/libssl.so.3  ") [] []
             [EvPopen [pystr "/sbin/ldconfig"; pystr "-p"];
              EvFindExecutable (pystr "ldconfig")]);
      [reflexivity | vm_compute; reflexivity
      | discriminate | reflexivity | discriminate | reflexivity
      | discriminate | reflexivity
      | intros H;
        repeat (apply elem_of_cons in H as [H|H]; [discriminate|]);
        now apply not_elem_of_nil in H
      | intros H;
        repeat (apply elem_of_cons in H as [H|H]; [discriminate|]);
        now apply not_elem_of_nil in H
      | intros H%contains_occurs; vm_compute in H; discriminate
      | intros j Hj;
        do 21 (destruct j as [|j]; [vm_compute; reflexivity|]);
        vm_compute in Hj; lia].
  - vm_compute. reflexivity.
Defined.

(** X12.  A listing that stops without a line break.  When the matched
    line is the last one and the text ends with a character [c] that is not
    a line break, [find] returns -1, the slice stops one character early,
    and the result is [_final_path] of the last part without [c]. *)
Theorem ldconfig_search_unterminated_line (w : World)
  (executable library pre ws version sp desc seg : list N) (c : N)
  (st st1 : list event) :
  find_executable w (pystr "ldconfig") = Some executable ->
  _execute w (executable ++ pystr " -p")
    (EvFindExecutable (pystr "ldconfig") :: st)
  = (Return (Some (pre ++ ws ++ (needle library ++ version) ++ sp
                   ++ [40%N] ++ _abi_type w
                   ++ desc ++ pystr "=>" ++ seg ++ [c])), st1) ->
  ws <> [] -> forallb isspace ws = true ->
  version <> [] -> forallb notspace version = true ->
  sp <> [] -> forallb isspace sp = true ->
  10%N ∉ desc -> 10%N ∉ seg -> c <> 10%N ->
  ~ contains (pystr "=>") seg ->
  no_match_before (ldconfig_expr library (_abi_type w))
    (pre ++ ws ++ (needle library ++ version) ++ sp ++ [40%N] ++ _abi_type w
     ++ desc ++ pystr "=>" ++ seg ++ [c]) (length pre) ->
  _ldconfig_search w library st
  = (p <- _final_path w (strip seg) ;; ret (Some p)) st1.
Proof.
  intros Hexe Hout Hws1 Hws2 Hv1 Hv2 Hsp1 Hsp2 Hdesc Hseg Hc Hno Hpre.
  destruct (search_ldconfig_entry library (_abi_type w) pre ws version sp
              (desc ++ pystr "=>" ++ seg ++ [c])
              Hws1 Hws2 Hv1 Hv2 Hsp1 Hsp2 Hpre) as (m & Hs & Hstart & Hend).
  rewrite (ldconfig_search_matched w executable library _ m st st1
             Hexe Hout Hs).
  rewrite Hstart, Hend.
  set (head := pre ++ ws ++ (needle library ++ version) ++ sp ++ [40%N]
               ++ _abi_type w).
  replace (pre ++ ws ++ (needle library ++ version) ++ sp ++ [40%N]
           ++ _abi_type w ++ desc ++ pystr "=>" ++ seg ++ [c])
    with (head ++ (desc ++ pystr "=>" ++ seg ++ [c]))
    by (unfold head; now rewrite <- !app_assoc).
  rewrite find_no_line_break.
  2:{ rewrite !not_elem_of_app. repeat split; try assumption.
      - intros H. vm_compute in H.
        repeat (apply elem_of_cons in H as [H|H]; [discriminate|]).
        now apply not_elem_of_nil in H.
      - intros H. apply elem_of_cons in H as [H|H]; [congruence|].
        now apply not_elem_of_nil in H. }
  set (line := ws ++ (needle library ++ version) ++ sp ++ [40%N]
               ++ _abi_type w ++ desc ++ pystr "=>" ++ seg).
  replace (head ++ (desc ++ pystr "=>" ++ seg ++ [c]))
    with (pre ++ line ++ [c])
    by (unfold head, line; now rewrite <- !app_assoc).
  rewrite slice_but_last. unfold line.
  rewrite needle_head.
  replace (ws ++ ((108%N :: 105%N :: 98%N :: library ++ [46%N]) ++ version)
           ++ sp ++ [40%N] ++ _abi_type w ++ desc ++ pystr "=>" ++ seg)
    with (ws ++ (108%N :: (105%N :: 98%N :: library ++ [46%N]) ++ version
                 ++ sp ++ [40%N] ++ _abi_type w ++ desc)
          ++ pystr "=>" ++ seg)
    by (cbn [app]; rewrite <- !app_assoc; cbn [app];
        now rewrite <- !app_assoc).
  rewrite ldconfig_line_strip by (assumption || reflexivity).
  reflexivity.
Qed.

Lemma ldconfig_search_unterminated_line_witness :
  _ldconfig_search
    (ldconfig_world
       ([9%N] ++ pystr "libssl.so.3 (libc6,x86-64) => /usr/lib/libssl.so.3"))
    (pystr "ssl") []
  = (Return (Some (pystr "/usr/lib/libssl.so.")),
     [EvRealpath (pystr "/usr/lib/libssl.so.");
      EvPopen [pystr "/sbin/ldconfig"; pystr "-p"];
      EvFindExecutable (pystr "ldconfig")]).
Proof.
  etransitivity.
  - apply (ldconfig_search_unterminated_line
             (ldconfig_world
                ([9%N]
                 ++ pystr "libssl.so.3 (libc6,x86-64) => /usr/lib/libssl.so.3"))
             (pystr "/sbin/ldconfig") (pystr "ssl")
             [] [9%N] (pystr "so.3") [32%N] (pystr ") ")
             (pystr " /usr/lib/libssl.so.") 51%N []
             [EvPopen [pystr "/sbin/ldconfig"; pystr "-p"];
              EvFindExecutable (pystr "ldconfig")]);
      [reflexivity | vm_compute; reflexivity
      | discriminate | reflexivity | discriminate | reflexivity
      | discriminate | reflexivity
      | intros H;
        repeat (apply elem_of_cons in H as [H|H]; [discriminate|]);
        now apply not_elem_of_nil in H
      | intros H;
        repeat (apply elem_of_cons in H as [H|H]; [discriminate|]);
        now apply not_elem_of_nil in H
      | discriminate
      | intros H%contains_occurs; vm_compute in H; discriminate
      | intros j Hj; simpl in Hj; lia].
  - vm_compute. reflexivity.
Defined.

(** ** The command lines *)

Lemma shlex_word (s rest tok : list N) (quoted : bool)
  (acc : list (list N)) :
  sh_plain s = true ->
  shlex_go ShWord quoted tok acc (s ++ rest)
  = shlex_go ShWord quoted (rev s ++ tok) acc rest.
Proof.
  revert tok. induction s as [|c s IH]; intros tok Hs; [reflexivity|].
  cbn [sh_plain forallb] in Hs. apply andb_true_iff in Hs as [Hc Hs].
  apply negb_true_iff in Hc.
  apply orb_false_iff in Hc as [Hc Hc3].
  apply orb_false_iff in Hc as [Hc1 Hc2].
  cbn [app shlex_go]. rewrite Hc1, Hc2, Hc3.
  rewrite IH by assumption. cbn [rev]. now rewrite <- app_assoc.
Qed.

Lemma shlex_word_start (s rest : list N) (acc : list (list N)) :
  sh_plain s = true -> s <> [] ->
  shlex_go ShWhite false [] acc (s ++ rest)
  = shlex_go ShWord false (rev s) acc rest.
Proof.
  intros Hs Hne. destruct s as [|c s]; [congruence|].
  cbn [sh_plain forallb] in Hs. apply andb_true_iff in Hs as [Hc Hs].
  apply negb_true_iff in Hc.
  apply orb_false_iff in Hc as [Hc Hc3].
  apply orb_false_iff in Hc as [Hc1 Hc2].
  cbn [app shlex_go]. rewrite Hc1, Hc2, Hc3.
  rewrite shlex_word by assumption. reflexivity.
Qed.

Lemma str_eqb_rev_nil (s : list N) : s <> [] -> str_eqb (rev s) [] = false.
Proof.
  intros Hne. apply str_eqb_neq. intros H. apply Hne.
  rewrite <- (rev_involutive s), H. reflexivity.
Qed.

(** A plain word followed by a blank is one argument. *)
Lemma shlex_word_blank (s rest : list N) (acc : list (list N)) :
  sh_plain s = true -> s <> [] ->
  shlex_go ShWhite false [] acc (s ++ 32%N :: rest)
  = shlex_go ShWhite false [] (s :: acc) rest.
Proof.
  intros Hs Hne. rewrite shlex_word_start by assumption.
  cbn [shlex_go]. change (sh_whitespace 32) with true. cbn iota.
  rewrite str_eqb_rev_nil by assumption. cbn [negb orb].
  now rewrite rev_involutive.
Qed.

(** A plain word at the end of the command is the last argument. *)
Lemma shlex_word_end (s : list N) (acc : list (list N)) :
  sh_plain s = true -> s <> [] ->
  shlex_go ShWhite false [] acc s = inr (rev (s :: acc)).
Proof.
  intros Hs Hne. rewrite <- (app_nil_r s) at 1.
  rewrite shlex_word_start by assumption.
  cbn [shlex_go]. rewrite str_eqb_rev_nil by assumption. cbn [negb orb].
  now rewrite rev_involutive.
Qed.





Lemma execute_popen_logged (w : World) (command : list N)
  (args : list (list N)) (st : list event) :
  shsplit command = inr args ->
  exists r evs, _execute w command st = (r, evs ++ EvPopen args :: st).
Proof.
  intros Hs. destruct (popen w args) as [[errno|msg]|pstdout] eqn:Hp.
  - exists (Return None), [EvLogDebug].
    now apply execute_spawn_OSError with errno.
  - exists (Raise (ValueError msg)), [].
    now apply execute_spawn_ValueError.
  - eexists _, []. apply (execute_output w command args pstdout st Hs Hp).
Qed.

(** X14.  The other two command lines have no quotes.  A path that is a
    plain word reaches [objdump] as one argument; a path with a blank in
    it reaches [objdump] as two arguments, neither of which is the path
    [soname] was asked about; and an [ldconfig] found under such a path
    is started under the first half of it, with the second half as an
    argument. *)
Theorem unquoted_paths_are_split (w : World) (a b : list N)
  (st : list event) :
  sh_plain a = true -> a <> [] ->
  sh_plain b = true -> b <> [] ->
  (isfile w a = true ->
   exists r evs,
     soname w a st
     = (r, evs ++ EvPopen [pystr "objdump"; pystr "-x"; pystr "-j";
                           pystr ".dynamic"; a]
                  :: EvIsfile a :: st))
  /\ (isfile w (a ++ 32%N :: b) = true ->
      exists r evs,
        soname w (a ++ 32%N :: b) st
        = (r, evs ++ EvPopen [pystr "objdump"; pystr "-x"; pystr "-j";
                              pystr ".dynamic"; a; b]
                     :: EvIsfile (a ++ 32%N :: b) :: st))
  /\ (forall library,
        find_executable w (pystr "ldconfig") = Some (a ++ 32%N :: b) ->
        exists r evs,
          _ldconfig_search w library st
          = (r, evs ++ EvPopen [a; b; pystr "-p"]
                       :: EvFindExecutable (pystr "ldconfig") :: st)).
Proof.
  intros Ha Hane Hb Hbne.
  assert (S1 : shsplit (objdump_command a)
               = inr [pystr "objdump"; pystr "-x"; pystr "-j";
                      pystr ".dynamic"; a]).
  { unfold shsplit, objdump_command.
    change (shlex_go ShWhite false [] [] (pystr "objdump -x -j .dynamic " ++ a))
      with (shlex_go ShWhite false []
              [pystr ".dynamic"; pystr "-j"; pystr "-x"; pystr "objdump"] a).
    now rewrite shlex_word_end. }
  assert (S2 : shsplit (objdump_command (a ++ 32%N :: b))
               = inr [pystr "objdump"; pystr "-x"; pystr "-j";
                      pystr ".dynamic"; a; b]).
  { unfold shsplit, objdump_command.
    change (shlex_go ShWhite false [] []
              (pystr "objdump -x -j .dynamic " ++ a ++ 32%N :: b))
      with (shlex_go ShWhite false []
              [pystr ".dynamic"; pystr "-j"; pystr "-x"; pystr "objdump"]
              (a ++ 32%N :: b)).
    rewrite shlex_word_blank by assumption.
    now rewrite shlex_word_end. }
  assert (S3 : shsplit ((a ++ 32%N :: b) ++ pystr " -p")
               = inr [a; b; pystr "-p"]).
  { unfold shsplit. rewrite <- app_assoc.
    change ((32%N :: b) ++ pystr " -p") with (32%N :: (b ++ 32%N :: pystr "-p")).
    rewrite !shlex_word_blank by assumption. reflexivity. }
  assert (Hsoname : forall path args,
             isfile w path = true ->
             shsplit (objdump_command path) = inr args ->
             exists r evs,
               soname w path st
               = (r, evs ++ EvPopen args :: EvIsfile path :: st)).
  { intros path args Hf Hs. unfold soname.
    unfold bind at 1, emit at 1. rewrite Hf. cbn [negb].
    unfold bind at 1.
    destruct (execute_popen_logged w _ args (EvIsfile path :: st) Hs)
      as (r & evs & ->).
    destruct r as [[dump|]|e]; unfold ret; eauto.
    destruct (search soname_expr dump); eauto. }
  split; [|split].
  - intros Hf. now apply Hsoname.
  - intros Hf. now apply Hsoname.
  - intros library Hexe.
    unfold _ldconfig_search, call_find_executable.
    unfold bind at 1 2, emit at 1, ret at 1. rewrite Hexe.
    unfold bind at 1.
    destruct (execute_popen_logged w _ _
                (EvFindExecutable (pystr "ldconfig") :: st) S3)
      as (r & evs & ->).
    destruct r as [[text|]|e]; unfold ret; eauto.
    cbv zeta.
    destruct (search _ text) as [m|]; [|eauto].
    unfold bind, ret.
    match goal with |- context [_final_path w ?q ?s] =>
      destruct (final_path_light w q s) as (evs' & Hs & _) end.
    destruct (_final_path w _ _) as [[p|e] st2]; cbn [snd] in Hs;
      subst st2; eexists _, (evs' ++ evs); now rewrite <- app_assoc.
Qed.

Lemma unquoted_paths_are_split_witness :
  exists r evs,
    soname spaced_world spaced_path []
    = (r, evs ++ [EvPopen [pystr "objdump"; pystr "-x"; pystr "-j";
                           pystr ".dynamic"; pystr "/opt/my";
                           pystr "libs/libq.so"];
                  EvIsfile spaced_path]).
Proof.
  apply (proj1 (proj2 (unquoted_paths_are_split spaced_world
                         (pystr "/opt/my") (pystr "libs/libq.so") []
                         eq_refl ltac:(discriminate)
                         eq_refl ltac:(discriminate)))).
  reflexivity.
Defined.
